(** * api-documenter: the HTML emitter ([CustomHtmlEmitter.ts])

    A shallow embedding of [CustomHtmlEmitter], the tree walker that
    renders a documentation-node tree into HTML/Markdown text, together
    with the properties of its per-kind rendering rules.

    JavaScript strings are modelled as [string] (sequences of 8-bit
    code units), the mutable emitter context as a record threaded through
    every call, [console.log] as a list of logged lines carried in that
    record, and a thrown exception as the [Throw] completion. *)

From Stdlib Require Import String Ascii List Bool Arith ZArith Lia.
From Stdlib Require Import DecimalString DecimalZ DecimalFacts DecimalPos.
Import ListNotations.

Local Open Scope list_scope.
Local Open Scope string_scope.

(* ================================================================= *)
(** ** JavaScript string primitives used by the emitter *)

Module Js.

Definition NL : string := String (ascii_of_nat 10) EmptyString.

(** The double-quote character, for attribute values. *)
Definition DQ : string := String (ascii_of_nat 34) EmptyString.

(** The character class [\s] (and the set stripped by [trim]) on code
    units below 256: TAB, LF, VT, FF, CR, SPACE and NBSP. *)
Definition isWhiteSpace (c : ascii) : bool :=
  let n := nat_of_ascii c in
  Nat.eqb n 9 || Nat.eqb n 10 || Nat.eqb n 11 || Nat.eqb n 12
  || Nat.eqb n 13 || Nat.eqb n 32 || Nat.eqb n 160.

Definition isNewline (c : ascii) : bool := Nat.eqb (nat_of_ascii c) 10.

Definition isEmpty (s : string) : bool :=
  match s with EmptyString => true | String _ _ => false end.

(** [s.length === 0] / [s.length > 0]. *)
Definition lengthIsZero (s : string) : bool := Nat.eqb (String.length s) 0.

(** Truthiness of a [string | undefined] value: [undefined] and the empty
    string are falsy. *)
Definition truthy (o : option string) : bool :=
  match o with
  | Some s => negb (isEmpty s)
  | None => false
  end.

Fixpoint trimStart (s : string) : string :=
  match s with
  | EmptyString => EmptyString
  | String c r => if isWhiteSpace c then trimStart r else s
  end.

Fixpoint trimEnd (s : string) : string :=
  match s with
  | EmptyString => EmptyString
  | String c r =>
      let r' := trimEnd r in
      if isWhiteSpace c && isEmpty r' then EmptyString else String c r'
  end.

(** [s.trim()] *)
Definition trim (s : string) : string := trimEnd (trimStart s).

(** [s.replace(/\s+/g, ' ')]: every maximal run of whitespace becomes a
    single space; [inRun] tells that the previous character was part of
    the run being replaced. *)
Fixpoint replaceRuns (inRun : bool) (s : string) : string :=
  match s with
  | EmptyString => EmptyString
  | String c r =>
      if isWhiteSpace c
      then (if inRun then replaceRuns true r
            else String " " (replaceRuns true r))
      else String c (replaceRuns false r)
  end.

Definition replaceWhitespaceRuns (s : string) : string := replaceRuns false s.

(** [/^\s?$/.test(s)]: [s] is empty or is exactly one whitespace
    character. *)
Definition testOptionalWhitespace (s : string) : bool :=
  match s with
  | EmptyString => true
  | String c EmptyString => isWhiteSpace c
  | String _ (String _ _) => false
  end.

(** The last code unit of a string, as a string of length at most 1
    ([s.substr(-1, 1)]). *)
Fixpoint lastCharacter (s : string) : string :=
  match s with
  | EmptyString => EmptyString
  | String c EmptyString => String c EmptyString
  | String _ r => lastCharacter r
  end.

(** Interpolating a possibly-undefined string into a template literal. *)
Definition interpolate (o : option string) : string :=
  match o with
  | Some s => s
  | None => "undefined"
  end.

Fixpoint repeatString (s : string) (n : nat) : string :=
  match n with
  | O => EmptyString
  | S k => s ++ repeatString s k
  end.

End Js.

(* ================================================================= *)
(** ** Completions: normal return or thrown exception *)

Inductive Completion (A : Type) : Type :=
| Normal (a : A)
| Throw (message : string).
Arguments Normal {A} a.
Arguments Throw {A} message.

Definition bind {A B : Type} (m : Completion A) (k : A -> Completion B)
  : Completion B :=
  match m with
  | Normal a => k a
  | Throw e => Throw e
  end.

Notation "x <- m ;; k" := (bind m (fun x => k))
  (at level 61, m at next level, right associativity).

(** [for (const x of xs) body(x)] over a state. *)
Fixpoint forEach {A St : Type} (xs : list A)
  (body : A -> St -> Completion St) (s : St) : Completion St :=
  match xs with
  | [] => Normal s
  | x :: rest => s' <- body x s ;; forEach rest body s'
  end.

(** [for (let i = start; i < start + count; ++i) body(i)] over a state. *)
Fixpoint forRange {St : Type} (start count : nat)
  (body : nat -> St -> Completion St) (s : St) : Completion St :=
  match count with
  | O => Normal s
  | S k => s' <- body start s ;; forRange (S start) k body s'
  end.

(* ================================================================= *)
(** ** The indent-tracking writer *)

Module IndentedWriter.

(** Modelled from the spec: [IndentedWriter] ([../utils/IndentedWriter])
    is not among the sources.  Following section 4.1 the writer
    accumulates the output text and an indentation depth; text written
    at the start of a line is prefixed by the indent string once per
    level. *)
Record t : Type := mk {
  buffer : string;
  indentLevel : nat;
  defaultIndentPrefix : string
}.

(** Modelled from the spec: a writer starts with nothing written and no
    indentation ("pure in-memory state"). *)
Definition create (prefix : string) : t := mk EmptyString 0 prefix.

(** Modelled from the spec: the prefix of a line, the indent string once
    per level pushed. *)
Definition indentText (w : t) : string :=
  Js.repeatString (defaultIndentPrefix w) (indentLevel w).

(** Modelled from the spec: "inspect the last character written"; the
    empty string when nothing has been written. *)
Definition peekLastCharacter (w : t) : string :=
  Js.lastCharacter (buffer w).

(** Modelled from the spec: "tracks current line/column state"; column 0
    is when nothing is written yet or the last character is a newline. *)
Definition atStartOfLine (w : t) : bool :=
  match peekLastCharacter w with
  | EmptyString => true
  | String c _ => Js.isNewline c
  end.

(** Modelled from the spec: the text accumulates at the end of the
    buffer. *)
Definition append (s : string) (w : t) : t :=
  mk (buffer w ++ s) (indentLevel w) (defaultIndentPrefix w).

(** Modelled from the spec: "output text written between push and matching
    pop is prefixed per line by the indent string": the first character
    of a line, if not a newline, comes after the indentation. *)
Definition writeCharacter (c : ascii) (w : t) : t :=
  if Js.isNewline c then append (String c EmptyString) w
  else if atStartOfLine w then append (indentText w ++ String c EmptyString) w
  else append (String c EmptyString) w.

(** Modelled from the spec: "append literal text"; each line of text is
    prefixed by the current indentation. *)
Fixpoint write (message : string) (w : t) : t :=
  match message with
  | EmptyString => w
  | String c rest => write rest (writeCharacter c w)
  end.

(** Modelled from the spec: "append a full line plus newline"; the
    message defaults to the empty string. *)
Definition writeLine (message : string) (w : t) : t :=
  append Js.NL (write message w).

(** Modelled from the spec: "force the cursor to a fresh line only if not
    already at column 0". *)
Definition ensureNewLine (w : t) : t :=
  if atStartOfLine w then w else append Js.NL w.

(** Modelled from the spec: the buffer without its "existing trailing
    blank lines", that is without the newlines at its end. *)
Fixpoint stripTrailingNewlines (s : string) : string :=
  match s with
  | EmptyString => EmptyString
  | String c r =>
      let r' := stripTrailingNewlines r in
      if Js.isNewline c && Js.isEmpty r' then EmptyString else String c r'
  end.

(** Modelled from the spec: "force exactly one blank line separating prior
    content from what follows, collapsing any existing trailing blank
    lines to exactly one".  With no prior content there is nothing to
    separate and the buffer is left as it is. *)
Definition ensureSkippedLine (w : t) : t :=
  let content := stripTrailingNewlines (buffer w) in
  if Js.isEmpty content then w
  else mk (content ++ Js.NL ++ Js.NL) (indentLevel w) (defaultIndentPrefix w).

(** Modelled from the spec: "push/pop one indentation level". *)
Definition increaseIndent (w : t) : t :=
  mk (buffer w) (S (indentLevel w)) (defaultIndentPrefix w).

(** Modelled from the spec: "pop"; "no operation fails", so popping
    without a push leaves the level at 0. *)
Definition decreaseIndent (w : t) : t :=
  mk (buffer w) (pred (indentLevel w)) (defaultIndentPrefix w).

End IndentedWriter.

(* ================================================================= *)
(** ** The API model and the document nodes *)

(** [ApiItem] of the API model: only the scoped name the emitter asks for
    (the value of [getScopedNameWithinPackage()]) and the display name. *)
Record ApiItem : Type := mkApiItem {
  displayName : string;
  getScopedNameWithinPackage : string
}.

(** A symbolic declaration reference; [emitAsTsdoc] is its original text. *)
Record DocDeclarationReference : Type := mkDocDeclarationReference {
  emitAsTsdoc : string
}.

Record IResolveDeclarationReferenceResult : Type :=
  mkResolveResult {
    resolvedApiItem : option ApiItem;
    errorMessage : option string
  }.

Record ApiModel : Type := mkApiModel {
  resolveDeclarationReference :
    option DocDeclarationReference -> option ApiItem ->
    IResolveDeclarationReferenceResult
}.

Record DocLinkTag : Type := mkDocLinkTag {
  codeDestination : option DocDeclarationReference;
  urlDestination : option string;
  linkText : option string
}.

(** The node taxonomy: one constructor per [docNode.kind] the emitter
    distinguishes; [DocOther] stands for every other kind. *)
#[warnings="-register-all"]
Inductive DocNode : Type :=
| DocPlainText (text : string)
| DocParagraph (nodes : list DocNode)
| DocSection (nodes : list DocNode)
| DocEmphasisSpan (bold italic : bool) (nodes : list DocNode)
| DocCodeSpan (code : string)
| DocFencedCode (code : string)
| DocSoftBreak
| DocLinkTagNode (tag : DocLinkTag)
| DocHeading (title : string) (level : Z)
| DocNoteBox (content : DocNode)
| DocTable (header : option DocTableRow) (rows : list DocTableRow)
| DocOther (kind : string)
with DocTableRow : Type :=
| mkDocTableRow (cells : list DocTableCell)
with DocTableCell : Type :=
| mkDocTableCell (content : DocNode).

Definition cells (row : DocTableRow) : list DocTableCell :=
  match row with mkDocTableRow cs => cs end.

Definition content (cell : DocTableCell) : DocNode :=
  match cell with mkDocTableCell c => c end.

Definition headerCells (header : option DocTableRow)
  : option (list DocTableCell) :=
  option_map cells header.

(* ================================================================= *)
(** ** The emitter context *)

Record ICustomMarkdownEmitterOptions : Type := mkOptions {
  contextApiItem : option ApiItem;
  onGetFilenameForApiItem : ApiItem -> option string
}.

(** [IMarkdownEmitterContext], with the lines printed by [console.log]
    carried along in [console] (most recent last). *)
Record IMarkdownEmitterContext : Type := mkContext {
  writer : IndentedWriter.t;
  insideTable : bool;
  boldRequested : bool;
  italicRequested : bool;
  options : ICustomMarkdownEmitterOptions;
  console : list string
}.

Definition setWriter (w : IndentedWriter.t) (c : IMarkdownEmitterContext) :=
  mkContext w (insideTable c) (boldRequested c) (italicRequested c)
    (options c) (console c).

Definition updWriter (f : IndentedWriter.t -> IndentedWriter.t)
  (c : IMarkdownEmitterContext) : IMarkdownEmitterContext :=
  setWriter (f (writer c)) c.

Definition setInsideTable (b : bool) (c : IMarkdownEmitterContext) :=
  mkContext (writer c) b (boldRequested c) (italicRequested c)
    (options c) (console c).

Definition setBoldRequested (b : bool) (c : IMarkdownEmitterContext) :=
  mkContext (writer c) (insideTable c) b (italicRequested c)
    (options c) (console c).

Definition setItalicRequested (b : bool) (c : IMarkdownEmitterContext) :=
  mkContext (writer c) (insideTable c) (boldRequested c) b
    (options c) (console c).

Definition consoleLog (line : string) (c : IMarkdownEmitterContext) :=
  mkContext (writer c) (insideTable c) (boldRequested c) (italicRequested c)
    (options c) (console c ++ [line]).

Module colors.
Definition ESC : string := String (ascii_of_nat 27) EmptyString.
(** [colors.yellow]: the text between the ANSI codes 33 and 39. *)
Definition yellow (s : string) : string :=
  ESC ++ "[33m" ++ s ++ ESC ++ "[39m".
End colors.

Definition Rendering : Type :=
  IMarkdownEmitterContext -> Completion IMarkdownEmitterContext.

(** A node's [writeNode], partially applied to the node. *)
Definition Renderer : Type :=
  IMarkdownEmitterContext -> bool -> Completion IMarkdownEmitterContext.

(** A node as the base class [MarkdownEmitter] is handed it by
    [super.writeNode]: its kind and fields, the child nodes being given by
    their renderings through [this.writeNode]. *)
Inductive BaseNode : Type :=
| BasePlainText (text : string)
| BaseParagraph (nodes : list Renderer)
| BaseSection (nodes : list Renderer)
| BaseLinkTag (tag : DocLinkTag)
| BaseOther (kind : string).

(* ================================================================= *)
(** ** The emitter *)

(** The column count of the [Table] case: "Size the table based on the
    longest row". *)
Definition tableColumnCount {A : Type} (header : option (list A))
  (rows : list (list A)) : nat :=
  let columnCount : nat := 0 in
  let columnCount : nat :=
    match header with
    | Some headerCells => List.length headerCells
    | None => columnCount
    end in
  fold_left
    (fun columnCount row =>
       if Nat.ltb columnCount (List.length row) then List.length row
       else columnCount)
    rows columnCount.

Section Emitter.

(** [getEscapedText] is inherited from [MarkdownEmitter], which is not
    among the sources: the emitter is modelled for an arbitrary escaping
    function. *)
Variable getEscapedText : string -> string.

(** [this._apiModel] *)
Variable _apiModel : ApiModel.

Import IndentedWriter.

(** [writeLinkTagWithUrlDestination] *)
Definition writeLinkTagWithUrlDestination (docLinkTag : DocLinkTag)
  (context : IMarkdownEmitterContext) : Completion IMarkdownEmitterContext :=
  let linkText : option string :=
    match linkText docLinkTag with
    | Some t => Some t
    | None => urlDestination docLinkTag
    end in
  match linkText with
  | None => Throw "TypeError: Cannot read property 'replace' of undefined"
  | Some linkText =>
      let encodedLinkText : string :=
        getEscapedText (Js.replaceWhitespaceRuns linkText) in
      Normal (updWriter
                (write ("<a href=" ++ Js.DQ
                        ++ Js.interpolate (urlDestination docLinkTag)
                        ++ Js.DQ ++ ">" ++ encodedLinkText ++ "</a>"))
                context)
  end.

(** [writeLinkTagWithCodeDestination] *)
Definition writeLinkTagWithCodeDestination (docLinkTag : DocLinkTag)
  (context : IMarkdownEmitterContext) : Completion IMarkdownEmitterContext :=
  let options := options context in
  let result :=
    resolveDeclarationReference _apiModel (codeDestination docLinkTag)
      (contextApiItem options) in
  match resolvedApiItem result with
  | Some item =>
      let filename : option string := onGetFilenameForApiItem options item in
      if Js.truthy filename then
        let linkText : string :=
          match linkText docLinkTag with
          | Some t => t
          | None => EmptyString
          end in
        let linkText : string :=
          if Js.lengthIsZero linkText
          then getScopedNameWithinPackage item
          else linkText in
        if negb (Js.lengthIsZero linkText) then
          let encodedLinkText : string :=
            getEscapedText (Js.replaceWhitespaceRuns linkText) in
          let context := updWriter (write "[") context in
          let context := updWriter (write encodedLinkText) context in
          let context :=
            updWriter (write ("](" ++ Js.interpolate filename ++ ")"))
              context in
          Normal context
        else
          Normal (consoleLog
                    (colors.yellow "WARNING: Unable to determine link text")
                    context)
      else Normal context
  | None =>
      if Js.truthy (errorMessage result) then
        match codeDestination docLinkTag with
        | None =>
            Throw "TypeError: Cannot read property 'emitAsTsdoc' of undefined"
        | Some reference =>
            Normal (consoleLog
                      (colors.yellow
                         ("WARNING: Unable to resolve reference " ++ Js.DQ
                          ++ emitAsTsdoc reference ++ Js.DQ ++ ": "
                          ++ Js.interpolate (errorMessage result)))
                      context)
        end
      else Normal context
  end.

(** Modelled from the spec: [MarkdownEmitter.writePlainText] is not among
    the sources.  Section 4.2: the text is emitted escaped, wrapped in the
    emphasis markers of the base syntax according to the current
    bold/italic flags. *)
Definition writePlainText (text : string)
  (context : IMarkdownEmitterContext) : IMarkdownEmitterContext :=
  let bold : string := if boldRequested context then "**" else EmptyString in
  let italic : string := if italicRequested context then "_" else EmptyString in
  let context := updWriter (write (bold ++ italic)) context in
  let context := updWriter (write (getEscapedText text)) context in
  updWriter (write (italic ++ bold)) context.

(** Modelled from the spec: [MarkdownEmitter.writeNodes] is not among the
    sources.  Section 4.2: renders an ordered sequence of sibling nodes in
    order, telling each whether it has siblings. *)
Definition writeRenderers (docNodes : list Renderer) : Rendering :=
  forEach docNodes
    (fun docNode context => docNode context (Nat.ltb 1 (List.length docNodes))).

(** Modelled from the spec: [MarkdownEmitter.writeNode] is not among the
    sources.  Section 4.2 gives its cases: plain text is written escaped
    under the current emphasis; a paragraph or section ensures a blank
    line, renders its children and ensures a blank line again; a link tag
    goes to the link writer of the destination it carries, and to neither
    writer when it carries no destination (section 7: nothing but an
    unsupported kind makes a rendering fail); any other kind fails as
    unsupported. *)
Definition superWriteNode (docNode : BaseNode) : Renderer :=
  fun context _ =>
  match docNode with
  | BasePlainText text => Normal (writePlainText text context)
  | BaseParagraph nodes =>
      let context := updWriter ensureSkippedLine context in
      context <- writeRenderers nodes context ;;
      Normal (updWriter ensureSkippedLine context)
  | BaseSection nodes =>
      let context := updWriter ensureSkippedLine context in
      context <- writeRenderers nodes context ;;
      Normal (updWriter ensureSkippedLine context)
  | BaseLinkTag docLinkTag =>
      match codeDestination docLinkTag, urlDestination docLinkTag with
      | Some _, _ => writeLinkTagWithCodeDestination docLinkTag context
      | None, Some _ => writeLinkTagWithUrlDestination docLinkTag context
      | None, None => Normal context
      end
  | BaseOther kind => Throw ("Unsupported DocNodeKind kind: " ++ kind)
  end.

(** The [Table] case of [writeNode]; the cells are given by the
    renderings of their contents. *)
Definition writeTable (header : option (list Renderer))
  (rows : list (list Renderer)) : Rendering :=
  fun context =>
  let context := updWriter ensureSkippedLine context in
  let context := setInsideTable true context in
  let columnCount : nat := tableColumnCount header rows in
  let context :=
    updWriter (writeLine ("<table class=" ++ Js.DQ ++ "doc-table"
                          ++ Js.DQ ++ ">")) context in
  let context := updWriter (writeLine "<thead>") context in
  let context := updWriter (writeLine "<tr>") context in
  context <-
    forRange 0 columnCount
      (fun i context =>
         let context := updWriter (write "<th>") context in
         context <-
           match header with
           | Some headerCells =>
               match nth_error headerCells i with
               | Some cell => cell context false
               | None => Normal context
               end
           | None => Normal context
           end ;;
         Normal (updWriter (write "</th>") context))
      context ;;
  let context := updWriter (writeLine EmptyString) context in
  let context := updWriter (writeLine "</tr>") context in
  let context := updWriter (writeLine "</thead>") context in
  context <-
    forEach rows
      (fun row context =>
         let context := updWriter (write "<tr>") context in
         context <-
           forEach row
             (fun cell context =>
                let context := updWriter (write "<td>") context in
                context <- cell context false ;;
                Normal (updWriter (write "</td>") context))
             context ;;
         let context := updWriter (writeLine EmptyString) context in
         Normal (updWriter (writeLine "</tr>") context))
      context ;;
  let context := updWriter (writeLine "</table>") context in
  Normal (setInsideTable false context).

(** The heading tag for a logical level. *)
Definition headingTag (level : Z) : string :=
  if (level =? 1)%Z then "h2"
  else if (level =? 2)%Z then "h3"
  else if (level =? 3)%Z then "h3"
  else "h4".

(** [writeNode]: the overriding dispatch of [CustomHtmlEmitter]; the kinds
    it does not handle itself go to [super.writeNode]. *)
Fixpoint writeNode (docNode : DocNode) {struct docNode} : Renderer :=
  match docNode with
  | DocHeading title level => fun context _ =>
      let tag : string := headingTag level in
      let context :=
        updWriter
          (writeLine ("<" ++ tag ++ " class=" ++ Js.DQ ++ "doc-heading"
                      ++ Js.DQ ++ ">" ++ getEscapedText title
                      ++ "</" ++ tag ++ ">")) context in
      Normal (updWriter (writeLine EmptyString) context)
  | DocNoteBox content => fun context _ =>
      let context := updWriter ensureNewLine context in
      let context := updWriter increaseIndent context in
      let context := updWriter (writeLine "<pre>") context in
      context <- writeNode content context false ;;
      let context := updWriter ensureNewLine context in
      let context := updWriter (writeLine "</pre>") context in
      let context := updWriter decreaseIndent context in
      Normal (updWriter (writeLine EmptyString) context)
  | DocTable header rows => fun context _ =>
      let render (cell : DocTableCell) : Renderer :=
        match cell with mkDocTableCell content => writeNode content end in
      let renderRow (row : DocTableRow) : list Renderer :=
        match row with mkDocTableRow cells => map render cells end in
      writeTable (option_map renderRow header) (map renderRow rows) context
  | DocEmphasisSpan bold italic nodes => fun context _ =>
      let oldBold : bool := boldRequested context in
      let oldItalic : bool := italicRequested context in
      let context := setBoldRequested bold context in
      let context := setItalicRequested italic context in
      context <- writeRenderers (map writeNode nodes) context ;;
      let context := setBoldRequested oldBold context in
      Normal (setItalicRequested oldItalic context)
  | DocCodeSpan code => fun context _ =>
      let context :=
        updWriter
          (write ("<code class=" ++ Js.DQ
                  ++ "doc-code-span language-javascript" ++ Js.DQ ++ ">"))
          context in
      let context := updWriter (write code) context in
      Normal (updWriter (write "</code>") context)
  | DocFencedCode code => fun context _ =>
      let context := updWriter ensureNewLine context in
      let context :=
        updWriter
          (writeLine ("<pre class=" ++ Js.DQ ++ "doc-fenced-code"
                      ++ Js.DQ ++ ">")) context in
      let context :=
        updWriter
          (writeLine ("<code class=" ++ Js.DQ ++ "language-javascript"
                      ++ Js.DQ ++ ">")) context in
      let context := updWriter (write (Js.trim code)) context in
      let context := updWriter (writeLine "</code>") context in
      Normal (updWriter (writeLine "</pre>") context)
  | DocSoftBreak => fun context _ =>
      if negb (Js.testOptionalWhitespace (peekLastCharacter (writer context)))
      then Normal (updWriter (write "<br />") context)
      else Normal context
  (* default: super.writeNode(docNode, context, false) *)
  | DocPlainText text => fun context _ =>
      superWriteNode (BasePlainText text) context false
  | DocParagraph nodes => fun context _ =>
      superWriteNode (BaseParagraph (map writeNode nodes)) context false
  | DocSection nodes => fun context _ =>
      superWriteNode (BaseSection (map writeNode nodes)) context false
  | DocLinkTagNode docLinkTag => fun context _ =>
      superWriteNode (BaseLinkTag docLinkTag) context false
  | DocOther kind => fun context _ =>
      superWriteNode (BaseOther kind) context false
  end.

(** Modelled from the spec: [MarkdownEmitter.writeNodes] (see
    [writeRenderers]), on the nodes themselves. *)
Definition writeNodes (docNodes : list DocNode) : Rendering :=
  forEach docNodes
    (fun docNode context =>
       writeNode docNode context (Nat.ltb 1 (List.length docNodes))).

End Emitter.

(* ================================================================= *)
(** ** The table and link rules in the spec's words *)

Section Described.

Variable getEscapedText : string -> string.
Variable _apiModel : ApiModel.

Import IndentedWriter.

(** The header cell of one column of a table; [None] for a column the
    header has no cell for. *)
Definition writeHeaderCell (cell : option DocTableCell) : Rendering :=
  fun context =>
  let context := updWriter (write "<th>") context in
  context <-
    match cell with
    | Some cell =>
        writeNode getEscapedText _apiModel (content cell) context false
    | None => Normal context
    end ;;
  Normal (updWriter (write "</th>") context).

Definition writeDataCell (cell : DocTableCell) : Rendering :=
  fun context =>
  let context := updWriter (write "<td>") context in
  context <-
    writeNode getEscapedText _apiModel (content cell) context false ;;
  Normal (updWriter (write "</td>") context).

Definition writeDataRow (row : DocTableRow) : Rendering :=
  fun context =>
  let context := updWriter (write "<tr>") context in
  context <- forEach (cells row) writeDataCell context ;;
  let context := updWriter (writeLine EmptyString) context in
  Normal (updWriter (writeLine "</tr>") context).

(** Follows the spec's words: "column count = max(header cell count, the
    longest row's cell count)", the header counting 0 when absent. *)
Definition specColumnCount (header : option DocTableRow)
  (rows : list DocTableRow) : nat :=
  Nat.max
    (match header with
     | Some row => List.length (cells row)
     | None => 0
     end)
    (list_max (map (fun row => List.length (cells row)) rows)).

(** Follows the spec's words: "the header is always rendered for all
    columns up to the computed count (missing header cells render as
    empty)". *)
Definition specHeaderRow (header : option DocTableRow)
  (rows : list DocTableRow) : list (option DocTableCell) :=
  let given : list DocTableCell :=
    match header with
    | Some row => cells row
    | None => []
    end in
  (map Some given
   ++ repeat None (specColumnCount header rows - List.length given))%list.

(** Follows the spec's words: the table as section 4.4 describes it, the
    header row over [specHeaderRow] and every data row over its own
    cells. *)
Definition specTable (header : option DocTableRow)
  (rows : list DocTableRow) : Rendering :=
  fun context =>
  let context := updWriter ensureSkippedLine context in
  let context := setInsideTable true context in
  let context :=
    updWriter (writeLine ("<table class=" ++ Js.DQ ++ "doc-table"
                          ++ Js.DQ ++ ">")) context in
  let context := updWriter (writeLine "<thead>") context in
  let context := updWriter (writeLine "<tr>") context in
  context <- forEach (specHeaderRow header rows) writeHeaderCell context ;;
  let context := updWriter (writeLine EmptyString) context in
  let context := updWriter (writeLine "</tr>") context in
  let context := updWriter (writeLine "</thead>") context in
  context <- forEach rows writeDataRow context ;;
  let context := updWriter (writeLine "</table>") context in
  Normal (setInsideTable false context).

Definition allCells (header : option DocTableRow)
  (rows : list DocTableRow) : list DocTableCell :=
  (match header with Some row => cells row | None => [] end
   ++ flat_map cells rows)%list.

End Described.

(* ================================================================= *)
(** ** The steps of a table *)


Section Steps.

Variable getEscapedText : string -> string.
Variable _apiModel : ApiModel.

Import IndentedWriter.







End Steps.

(** The display text of a symbolic-code link: the given text when it is
    not empty, the scoped name of the resolved item otherwise. *)
Definition codeLinkText (tag : DocLinkTag) (item : ApiItem) : string :=
  match linkText tag with
  | Some given => if Js.isEmpty given then getScopedNameWithinPackage item
                  else given
  | None => getScopedNameWithinPackage item
  end.

(* ================================================================= *)
(** ** Predicates on texts, buffers and renderings *)

Module Predicates.
Import IndentedWriter.

Definition hasNewline (s : string) : bool :=
  existsb Js.isNewline (list_ascii_of_string s).

(** Some character of [s] is not a newline. *)
Definition hasContent (s : string) : bool :=
  negb (Js.isEmpty (stripTrailingNewlines s)).

Definition allWhiteSpace (s : string) : bool :=
  forallb Js.isWhiteSpace (list_ascii_of_string s).

Definition startsWithWhiteSpace (s : string) : bool :=
  match s with
  | EmptyString => false
  | String c _ => Js.isWhiteSpace c
  end.

Definition endsWithWhiteSpace (s : string) : bool :=
  startsWithWhiteSpace (Js.lastCharacter s).

(** No whitespace other than single spaces: what replacing every run by
    one space leaves. *)
Fixpoint collapsed (afterSpace : bool) (s : string) : bool :=
  match s with
  | EmptyString => true
  | String c r =>
      if Js.isWhiteSpace c
      then Ascii.eqb c " " && negb afterSpace && collapsed true r
      else collapsed false r
  end.

(** [b] extends [B] by text that is not made of newlines only. *)
Definition extendsWithContent (B b : string) : Prop :=
  exists s, b = B ++ s /\ hasContent s = true.

End Predicates.

(** The text that [write] adds to the buffer for [text]: the text itself
    with the indentation before the first character of each of its lines
    that is not empty; [atStart] tells whether the text begins a line. *)
Fixpoint indented (indent : string) (atStart : bool) (text : string)
  : string :=
  match text with
  | EmptyString => EmptyString
  | String ch rest =>
      if Js.isNewline ch then String ch (indented indent true rest)
      else (if atStart then indent else EmptyString)
           ++ String ch (indented indent false rest)
  end.

(** The part of the context that a completed rendering restores: the
    emphasis flags, the options and the indentation of the writer. *)
Definition frame (c : IMarkdownEmitterContext)
  : bool * bool * ICustomMarkdownEmitterOptions * nat * string :=
  (boldRequested c, italicRequested c, options c,
   IndentedWriter.indentLevel (writer c),
   IndentedWriter.defaultIndentPrefix (writer c)).

(** A property of the contents of a row's cells, and of a header's. *)
Definition PRow (P : DocNode -> Prop) (row : DocTableRow) : Prop :=
  Forall (fun cell => P (content cell)) (cells row).

Definition PHeader (P : DocNode -> Prop) (header : option DocTableRow)
  : Prop :=
  match header with
  | Some row => PRow P row
  | None => True
  end.

(** Renderings that relate the context they return to the one they were
    given. *)
Definition respecting
  (R : IMarkdownEmitterContext -> IMarkdownEmitterContext -> Prop)
  (r : Rendering) : Prop :=
  forall c c', r c = Normal c' -> R c c'.

Definition respects
  (R : IMarkdownEmitterContext -> IMarkdownEmitterContext -> Prop)
  (r : Renderer) : Prop :=
  forall sib, respecting R (fun c => r c sib).

(* ================================================================= *)
(** ** Predicates on documents *)

(** Some node of the tree, the root included, passes [test]. *)
Fixpoint anyNode (test : DocNode -> bool) (docNode : DocNode) : bool :=
  test docNode
  || match docNode with
     | DocParagraph nodes => existsb (anyNode test) nodes
     | DocSection nodes => existsb (anyNode test) nodes
     | DocEmphasisSpan _ _ nodes => existsb (anyNode test) nodes
     | DocNoteBox content => anyNode test content
     | DocTable header rows =>
         let inCell (cell : DocTableCell) : bool :=
           match cell with mkDocTableCell content => anyNode test content end in
         let inRow (row : DocTableRow) : bool :=
           match row with mkDocTableRow cells => existsb inCell cells end in
         match header with Some row => inRow row | None => false end
         || existsb inRow rows
     | _ => false
     end.

(** A link tag with a code destination. *)
Definition isCodeLink (docNode : DocNode) : bool :=
  match docNode with
  | DocLinkTagNode tag =>
      match codeDestination tag with Some _ => true | None => false end
  | _ => false
  end.

Definition isTable (docNode : DocNode) : bool :=
  match docNode with
  | DocTable _ _ => true
  | _ => false
  end.

(** A node on which the rendering stops: a node of a kind that no emitter
    handles. *)
Definition isUnsupported (docNode : DocNode) : bool :=
  match docNode with
  | DocOther _ => true
  | _ => false
  end.

(** Some plain text of the tree is not inside an emphasis span of the
    tree. *)
Fixpoint plainTextOutsideSpans (docNode : DocNode) : bool :=
  match docNode with
  | DocPlainText _ => true
  | DocParagraph nodes => existsb plainTextOutsideSpans nodes
  | DocSection nodes => existsb plainTextOutsideSpans nodes
  | DocNoteBox content => plainTextOutsideSpans content
  | DocTable header rows =>
      let inCell (cell : DocTableCell) : bool :=
        match cell with
        | mkDocTableCell content => plainTextOutsideSpans content
        end in
      let inRow (row : DocTableRow) : bool :=
        match row with mkDocTableRow cells => existsb inCell cells end in
      match header with Some row => inRow row | None => false end
      || existsb inRow rows
  | _ => false
  end.

(** The context with its emphasis flags set. *)
Definition withFlags (bold italic : bool) (c : IMarkdownEmitterContext)
  : IMarkdownEmitterContext :=
  setItalicRequested italic (setBoldRequested bold c).

Definition mapCompletion {A B : Type} (f : A -> B) (r : Completion A)
  : Completion B :=
  match r with
  | Normal a => Normal (f a)
  | Throw message => Throw message
  end.

(* ================================================================= *)
(** ** The documenter: file names of API items ([HtmlDocumenter.ts]) *)

Module ApiItemKind.
(** [ApiItemKind] of the API model: the kinds [_getFilenameForApiItem]
    tells apart; [Other] stands for every other kind (class, method,
    namespace, ...). *)
Inductive t : Type :=
| Model
| EntryPoint
| Package
| Other (name : string).
End ApiItemKind.

Module HtmlDocumenter.

(** An item of a hierarchy as [_getFilenameForApiItem] reads it: its
    display name (in [apiItem]), its kind, and its overload index when
    [ApiParameterListMixin.isBaseClassOf] holds of it.  The index is a
    JavaScript number; it is modelled by the integer it holds, which is
    exact for the safe integers (see [isSafeInteger]). *)
Record HierarchyItem : Type := mkHierarchyItem {
  apiItem : ApiItem;
  kind : ApiItemKind.t;
  overloadIndex : option Z
}.

(** The item a file name is asked for, with the result of its
    [getHierarchy()]. *)
Record DocumentedItem : Type := mkDocumentedItem {
  self : HierarchyItem;
  getHierarchy : list HierarchyItem
}.

(** [Number.isSafeInteger]: the integers of magnitude below 2^53.  On
    these the subtraction [overloadIndex - 1] of the code is exact and a
    number in a template literal prints as its decimal digits; beyond them
    the code rounds, and the model does not follow it. *)
Definition isSafeInteger (n : Z) : bool :=
  ((- 2 ^ 53 <? n) && (n <? 2 ^ 53))%Z.

(** A number in a template literal, for the safe integers: they print in
    decimal. *)
Definition numberToString (n : Z) : string :=
  NilZero.string_of_int (Z.to_int n).

Section Documenter.

(** [Utilities.getSafeFilenameForName] ([../utils/Utilities]) and
    [PackageName.getUnscopedName] are not among the sources: the
    documenter is modelled for arbitrary such functions. *)
Variable getSafeFilenameForName : string -> string.
Variable getUnscopedName : string -> string.

(** The [qualifiedName] of one hierarchy item: "For overloaded methods, add
    a suffix such as MyClass.myMethod_2". *)
Definition qualifiedNameOf (hierarchyItem : HierarchyItem) : string :=
  let qualifiedName : string :=
    getSafeFilenameForName (displayName (apiItem hierarchyItem)) in
  match overloadIndex hierarchyItem with
  | Some index =>
      if (1 <? index)%Z
      then qualifiedName ++ "_" ++ numberToString (index - 1)
      else qualifiedName
  | None => qualifiedName
  end.

(** One turn of the loop over the hierarchy. *)
Definition extendBaseName (baseName : string) (hierarchyItem : HierarchyItem)
  : string :=
  let qualifiedName : string := qualifiedNameOf hierarchyItem in
  match kind hierarchyItem with
  | ApiItemKind.Model => baseName
  | ApiItemKind.EntryPoint => baseName
  | ApiItemKind.Package =>
      getSafeFilenameForName
        (getUnscopedName (displayName (apiItem hierarchyItem)))
  | ApiItemKind.Other _ => baseName ++ "." ++ qualifiedName
  end.

(** [_getFilenameForApiItem] *)
Definition _getFilenameForApiItem (item : DocumentedItem) : string :=
  match kind (self item) with
  | ApiItemKind.Model => "index.html"
  | _ =>
      let baseName : string :=
        fold_left extendBaseName (getHierarchy item) EmptyString in
      baseName ++ ".html"
  end.

(** [_getLinkFilenameForApiItem] *)
Definition _getLinkFilenameForApiItem (item : DocumentedItem) : string :=
  "./" ++ _getFilenameForApiItem item.

End Documenter.

End HtmlDocumenter.

(** What a hierarchy contributes to a file name, in words: the items other
    than the model and the entry point, each as a dot and its qualified
    name. *)
Module FileNames.
Import HtmlDocumenter.

Definition isModel (k : ApiItemKind.t) : bool :=
  match k with ApiItemKind.Model => true | _ => false end.

Definition isPackage (k : ApiItemKind.t) : bool :=
  match k with ApiItemKind.Package => true | _ => false end.

(** The item is neither the model nor an entry point. *)
Definition isNamed (h : HierarchyItem) : bool :=
  match kind h with
  | ApiItemKind.Model => false
  | ApiItemKind.EntryPoint => false
  | _ => true
  end.

Definition dotJoined (getSafeFilenameForName : string -> string)
  (items : list HierarchyItem) : string :=
  fold_right
    (fun h rest => "." ++ qualifiedNameOf getSafeFilenameForName h ++ rest)
    EmptyString items.

End FileNames.

(* ================================================================= *)
(** ** A sample API model and sample documents *)

Module Sample.

Definition isSyntaxCharacter (c : ascii) : bool :=
  existsb (Ascii.eqb c) ["*"; "#"; "["; "]"; "_"; "|"; "~"]%char.

(** Modelled from the spec: [MarkdownEmitter.getEscapedText] is not among
    the sources.  Section 4.2: "characters with syntactic meaning are
    backslash-escaped"; the characters taken here are those of the base
    syntax's emphasis, heading, link and table markers. *)
Fixpoint getEscapedText (text : string) : string :=
  match text with
  | EmptyString => EmptyString
  | String c rest =>
      if isSyntaxCharacter c
      then String (ascii_of_nat 92) (String c (getEscapedText rest))
      else String c (getEscapedText rest)
  end.

Definition method : ApiItem := mkApiItem "method" "Foo.Bar.method()".
Definition hidden : ApiItem := mkApiItem "hidden" "Foo.hidden".

(** A model that knows two declarations. *)
Definition apiModel : ApiModel :=
  mkApiModel
    (fun reference _ =>
       match reference with
       | Some (mkDocDeclarationReference text) =>
           if String.eqb text "Foo.Bar.method"
           then mkResolveResult (Some method) None
           else if String.eqb text "Foo.hidden"
                then mkResolveResult (Some hidden) None
                else mkResolveResult None (Some "not found")
       | None => mkResolveResult None (Some "no reference")
       end).

(** Only [method] has a page. *)
Definition options : ICustomMarkdownEmitterOptions :=
  mkOptions None
    (fun item =>
       if String.eqb (displayName item) "method" then Some "Foo.Bar.md"
       else None).

(** The context at the start of [emit]. *)
Definition initial : IMarkdownEmitterContext :=
  mkContext (IndentedWriter.create "  ") false false false options [].

(** A context in which [text] has been written. *)
Definition after (text : string) : IMarkdownEmitterContext :=
  updWriter (IndentedWriter.write text) initial.

Definition linkTo (reference : string) (text : option string) : DocLinkTag :=
  mkDocLinkTag (Some (mkDocDeclarationReference reference)) None text.

Definition cell (text : string) : DocTableCell :=
  mkDocTableCell (DocPlainText text).

(** A table whose rows have different lengths. *)
Definition ragged : DocNode :=
  DocTable (Some (mkDocTableRow [cell "h"]))
    [mkDocTableRow [cell "a"; cell "b"; cell "c"]; mkDocTableRow [cell "d"]].

Definition headless : DocNode :=
  DocTable None [mkDocTableRow [cell "a"; cell "b"]].

Definition emphasised : DocNode :=
  DocEmphasisSpan true false
    [DocPlainText "a"; DocEmphasisSpan false true [DocPlainText "b"];
     DocPlainText "c"].

(** The context a rendering returns; [initial] when it throws. *)
Definition returned (r : Completion IMarkdownEmitterContext)
  : IMarkdownEmitterContext :=
  match r with
  | Normal c => c
  | Throw _ => initial
  end.

Definition output (r : Completion IMarkdownEmitterContext) : string :=
  IndentedWriter.buffer (writer (returned r)).

End Sample.

(* ================================================================= *)
(** ** Sample pages *)

Module SamplePages.
Import HtmlDocumenter.

Definition isFilenameCharacter (c : ascii) : bool :=
  let n := nat_of_ascii c in
  (Nat.leb 48 n && Nat.leb n 57) || (Nat.leb 65 n && Nat.leb n 90)
  || (Nat.leb 97 n && Nat.leb n 122)
  || Nat.eqb n 95 || Nat.eqb n 45 || Nat.eqb n 46.

(** An instance of the name cleaning for the examples
    ([Utilities.getSafeFilenameForName] is not among the sources): every
    character other than a letter, a digit, [_], [-] and [.] becomes
    [_]. *)
Fixpoint safeName (name : string) : string :=
  match name with
  | EmptyString => EmptyString
  | String c rest =>
      String (if isFilenameCharacter c then c else "_"%char) (safeName rest)
  end.

Fixpoint afterSlash (name : string) : option string :=
  match name with
  | EmptyString => None
  | String c rest =>
      if Ascii.eqb c "/"%char then Some rest else afterSlash rest
  end.

(** An instance of the scope removal for the examples
    ([PackageName.getUnscopedName] is not among the sources): the text
    after the first [/], or the whole name when it has none. *)
Definition unscopedName (name : string) : string :=
  match afterSlash name with
  | Some rest => rest
  | None => name
  end.

Definition named (name : string) (kind : ApiItemKind.t)
  (overloadIndex : option Z) : HierarchyItem :=
  mkHierarchyItem (mkApiItem name name) kind overloadIndex.

Definition model : HierarchyItem := named "" ApiItemKind.Model None.
Definition package : HierarchyItem :=
  named "@scope/my-package" ApiItemKind.Package None.
Definition entryPoint : HierarchyItem :=
  named "" ApiItemKind.EntryPoint None.
Definition class : HierarchyItem :=
  named "MyClass" (ApiItemKind.Other "Class") None.
Definition method (overloadIndex : Z) : HierarchyItem :=
  named "myMethod" (ApiItemKind.Other "Method") (Some overloadIndex).

(** The page of an overload of [MyClass.myMethod]. *)
Definition methodPage (overloadIndex : Z) : DocumentedItem :=
  mkDocumentedItem (method overloadIndex)
    [model; package; entryPoint; class; method overloadIndex].

(** A paragraph with a link that the sample model cannot resolve. *)
Definition unresolved : DocNode :=
  DocParagraph
    [DocPlainText "see "; DocLinkTagNode (Sample.linkTo "Nope" None)].

(** A document without plain text outside of its emphasis span. *)
Definition titled : DocNode :=
  DocSection
    [DocHeading "Title" 1; DocCodeSpan "x";
     DocEmphasisSpan true false [DocPlainText "a"]].



End SamplePages.

(* ================================================================= *)
(** ** Facts about strings *)

Module StringFacts.

Lemma append_nil_r (s : string) : s ++ EmptyString = s.
Proof. induction s as [|c s IH]; simpl; [reflexivity | now rewrite IH]. Qed.

Lemma append_assoc (a b c : string) : (a ++ b) ++ c = a ++ (b ++ c).
Proof. induction a as [|x a IH]; simpl; [reflexivity | now rewrite IH]. Qed.

Lemma append_cons_assoc (a : string) (c : ascii) (b : string) :
  (a ++ String c EmptyString) ++ b = a ++ String c b.
Proof. now rewrite append_assoc. Qed.

Lemma isEmpty_true (s : string) : Js.isEmpty s = true -> s = EmptyString.
Proof. destruct s; [reflexivity | discriminate]. Qed.

Lemma isEmpty_append (a b : string) :
  Js.isEmpty (a ++ b) = Js.isEmpty a && Js.isEmpty b.
Proof. destruct a; reflexivity. Qed.

Lemma lastCharacter_snoc (s : string) (c : ascii) :
  Js.lastCharacter (s ++ String c EmptyString) = String c EmptyString.
Proof.
  induction s as [|x s IH]; simpl; [reflexivity|].
  rewrite IH. destruct s; reflexivity.
Qed.

Lemma lastCharacter_append (a b : string) :
  Js.lastCharacter (a ++ b)
  = if Js.isEmpty b then Js.lastCharacter a else Js.lastCharacter b.
Proof.
  induction a as [|x a IH]; simpl.
  - destruct b; reflexivity.
  - rewrite IH. destruct a as [|y a]; simpl.
    + destruct b; reflexivity.
    + destruct b; reflexivity.
Qed.

Lemma repeatString_empty (n : nat) :
  Js.repeatString EmptyString n = EmptyString.
Proof. induction n; simpl; auto. Qed.

End StringFacts.

(* ================================================================= *)
(** ** Facts about the writer *)

Module WriterFacts.
Import IndentedWriter StringFacts Predicates.

Lemma append_append (a b : string) (w : t) :
  append b (append a w) = append (a ++ b) w.
Proof. unfold append; simpl. now rewrite append_assoc. Qed.

Lemma append_empty (w : t) : append EmptyString w = w.
Proof. destruct w; unfold append; simpl. now rewrite append_nil_r. Qed.

Lemma atStartOfLine_append_char (c : ascii) (s : string) (w : t) :
  atStartOfLine (append (s ++ String c EmptyString) w) = Js.isNewline c.
Proof.
  unfold atStartOfLine, peekLastCharacter, append; simpl.
  rewrite <- append_assoc, lastCharacter_snoc. reflexivity.
Qed.

Lemma atStartOfLine_append_single (c : ascii) (w : t) :
  atStartOfLine (append (String c EmptyString) w) = Js.isNewline c.
Proof. exact (atStartOfLine_append_char c EmptyString w). Qed.

Lemma write_append (a b : string) (w : t) :
  write (a ++ b) w = write b (write a w).
Proof. revert w; induction a as [|c a IH]; intro w; simpl; auto. Qed.

Lemma writeCharacter_indent (c : ascii) (w : t) :
  indentLevel (writeCharacter c w) = indentLevel w
  /\ defaultIndentPrefix (writeCharacter c w) = defaultIndentPrefix w.
Proof.
  unfold writeCharacter.
  destruct (Js.isNewline c), (atStartOfLine w); simpl; auto.
Qed.

Lemma write_indent (s : string) (w : t) :
  indentLevel (write s w) = indentLevel w
  /\ defaultIndentPrefix (write s w) = defaultIndentPrefix w.
Proof.
  revert w; induction s as [|c s IH]; intro w; simpl; auto.
  destruct (IH (writeCharacter c w)) as [-> ->].
  apply writeCharacter_indent.
Qed.

Lemma write_indentText (s : string) (w : t) :
  indentText (write s w) = indentText w.
Proof. unfold indentText. now destruct (write_indent s w) as [-> ->]. Qed.

Lemma writeCharacter_extends (c : ascii) (w : t) :
  exists x, writeCharacter c w = append x w /\ Js.isEmpty x = false.
Proof.
  unfold writeCharacter.
  destruct (Js.isNewline c); [eexists; split; [reflexivity|reflexivity]|].
  destruct (atStartOfLine w); eexists; split; try reflexivity.
  rewrite isEmpty_append. simpl. apply andb_false_r.
Qed.

Lemma write_extends (s : string) (w : t) :
  exists x, write s w = append x w.
Proof.
  revert w; induction s as [|c s IH]; intro w; simpl.
  - exists EmptyString. now rewrite append_empty.
  - destruct (writeCharacter_extends c w) as (x & -> & _).
    destruct (IH (append x w)) as (y & ->).
    exists (x ++ y). apply append_append.
Qed.

(** Text without a newline, written in the middle of a line, is appended
    as it is. *)
Lemma write_midline (s : string) (w : t) :
  hasNewline s = false -> atStartOfLine w = false ->
  write s w = append s w.
Proof.
  revert w; induction s as [|c s IH]; intros w Hs Hw; simpl.
  - now rewrite append_empty.
  - unfold hasNewline in Hs; simpl in Hs.
    apply orb_false_elim in Hs as [Hc Hs].
    unfold writeCharacter. rewrite Hc, Hw.
    rewrite IH; auto.
    + now rewrite append_append.
    + now rewrite atStartOfLine_append_single.
Qed.

(** Text without a newline, written at the start of a line, is prefixed by
    the indentation. *)
Lemma write_linestart (c : ascii) (s : string) (w : t) :
  hasNewline (String c s) = false -> atStartOfLine w = true ->
  write (String c s) w = append (indentText w ++ String c s) w.
Proof.
  intros Hs Hw. simpl.
  unfold hasNewline in Hs; simpl in Hs.
  apply orb_false_elim in Hs as [Hc Hs].
  unfold writeCharacter. rewrite Hc, Hw.
  rewrite write_midline; auto.
  - rewrite append_append. now rewrite append_cons_assoc.
  - now rewrite atStartOfLine_append_char.
Qed.

(** Without indentation [write] appends its argument as it is. *)
Lemma write_noindent (s : string) (w : t) :
  indentLevel w = 0 -> write s w = append s w.
Proof.
  revert w; induction s as [|c s IH]; intros w Hw; simpl.
  - now rewrite append_empty.
  - assert (Hc : writeCharacter c w = append (String c EmptyString) w).
    { unfold writeCharacter, indentText. rewrite Hw. simpl.
      destruct (Js.isNewline c), (atStartOfLine w); reflexivity. }
    rewrite Hc, IH by (simpl; exact Hw).
    now rewrite append_append.
Qed.

Lemma writeLine_noindent (s : string) (w : t) :
  indentLevel w = 0 -> writeLine s w = append (s ++ Js.NL) w.
Proof.
  intro Hw. unfold writeLine. rewrite write_noindent by exact Hw.
  apply append_append.
Qed.

Lemma atStartOfLine_writeLine (s : string) (w : t) :
  atStartOfLine (writeLine s w) = true.
Proof.
  unfold writeLine.
  apply (atStartOfLine_append_single (ascii_of_nat 10)).
Qed.

Lemma atStartOfLine_ensureNewLine (w : t) :
  atStartOfLine (ensureNewLine w) = true.
Proof.
  unfold ensureNewLine. destruct (atStartOfLine w) eqn:E; [exact E|].
  apply (atStartOfLine_append_single (ascii_of_nat 10)).
Qed.

End WriterFacts.

(* ================================================================= *)
(** ** Induction over document trees *)

Section DocNodeInduction.

Variable P : DocNode -> Prop.

Hypothesis HPlainText : forall text, P (DocPlainText text).
Hypothesis HParagraph : forall nodes, Forall P nodes -> P (DocParagraph nodes).
Hypothesis HSection : forall nodes, Forall P nodes -> P (DocSection nodes).
Hypothesis HEmphasisSpan :
  forall bold italic nodes,
    Forall P nodes -> P (DocEmphasisSpan bold italic nodes).
Hypothesis HCodeSpan : forall code, P (DocCodeSpan code).
Hypothesis HFencedCode : forall code, P (DocFencedCode code).
Hypothesis HSoftBreak : P DocSoftBreak.
Hypothesis HLinkTag : forall tag, P (DocLinkTagNode tag).
Hypothesis HHeading : forall title level, P (DocHeading title level).
Hypothesis HNoteBox : forall node, P node -> P (DocNoteBox node).
Hypothesis HTable :
  forall header rows, PHeader P header -> Forall (PRow P) rows ->
                      P (DocTable header rows).
Hypothesis HOther : forall kind, P (DocOther kind).

Fixpoint DocNode_tree_ind (docNode : DocNode) : P docNode :=
  let nodes_ind :=
    fix nodes_ind (l : list DocNode) : Forall P l :=
      match l with
      | [] => Forall_nil P
      | n :: r => Forall_cons n (DocNode_tree_ind n) (nodes_ind r)
      end in
  let cells_ind :=
    fix cells_ind (l : list DocTableCell)
      : Forall (fun cell => P (content cell)) l :=
      match l with
      | [] => Forall_nil _
      | mkDocTableCell n :: r =>
          Forall_cons (mkDocTableCell n) (DocNode_tree_ind n) (cells_ind r)
      end in
  let row_ind (row : DocTableRow) : PRow P row :=
    match row with mkDocTableRow cs => cells_ind cs end in
  let rows_ind :=
    fix rows_ind (l : list DocTableRow) : Forall (PRow P) l :=
      match l with
      | [] => Forall_nil (PRow P)
      | row :: r => Forall_cons row (row_ind row) (rows_ind r)
      end in
  match docNode with
  | DocPlainText text => HPlainText text
  | DocParagraph nodes => HParagraph nodes (nodes_ind nodes)
  | DocSection nodes => HSection nodes (nodes_ind nodes)
  | DocEmphasisSpan b i nodes => HEmphasisSpan b i nodes (nodes_ind nodes)
  | DocCodeSpan code => HCodeSpan code
  | DocFencedCode code => HFencedCode code
  | DocSoftBreak => HSoftBreak
  | DocLinkTagNode tag => HLinkTag tag
  | DocHeading title level => HHeading title level
  | DocNoteBox node => HNoteBox node (DocNode_tree_ind node)
  | DocTable header rows =>
      HTable header rows
        (match header return PHeader P header with
         | Some row => row_ind row
         | None => I
         end)
        (rows_ind rows)
  | DocOther kind => HOther kind
  end.

End DocNodeInduction.

(* ================================================================= *)
(** ** Loops *)

Arguments IndentedWriter.write : simpl never.
Arguments IndentedWriter.writeLine : simpl never.
Arguments IndentedWriter.ensureNewLine : simpl never.
Arguments IndentedWriter.ensureSkippedLine : simpl never.
Arguments String.append : simpl never.

Lemma bind_Normal_inv {A B : Type} (m : Completion A)
  (k : A -> Completion B) (b : B) :
  (a <- m ;; k a) = Normal b -> exists a, m = Normal a /\ k a = Normal b.
Proof. destruct m as [a|e]; simpl; [eauto | discriminate]. Qed.

Ltac bind_inv H :=
  let c := fresh "c" in
  let E := fresh "E" in
  apply bind_Normal_inv in H as (c & E & H).

Lemma forEach_map {A B St : Type} (f : A -> B) (l : list A)
  (body : B -> St -> Completion St) (s : St) :
  forEach (map f l) body s = forEach l (fun a => body (f a)) s.
Proof.
  revert s; induction l as [|a l IH]; intro s; simpl; [reflexivity|].
  destruct (body (f a) s); simpl; auto.
Qed.

Lemma forEach_app {A St : Type} (l1 l2 : list A)
  (body : A -> St -> Completion St) (s : St) :
  forEach (l1 ++ l2)%list body s
  = (s' <- forEach l1 body s ;; forEach l2 body s').
Proof.
  revert s; induction l1 as [|a l1 IH]; intro s; simpl; [reflexivity|].
  destruct (body a s); simpl; auto.
Qed.

Lemma forEach_ext {A St : Type} (l : list A)
  (f g : A -> St -> Completion St) (s : St) :
  (forall a s, f a s = g a s) -> forEach l f s = forEach l g s.
Proof.
  intro H. revert s; induction l as [|a l IH]; intro s; simpl; [reflexivity|].
  rewrite H. destruct (g a s); simpl; auto.
Qed.

(** A counting loop is a loop over the indices [start, start + count). *)
Lemma forRange_seq {St : Type} (start count : nat)
  (body : nat -> St -> Completion St) (s : St) :
  forRange start count body s = forEach (seq start count) body s.
Proof.
  revert start s; induction count as [|k IH]; intros start s; simpl;
    [reflexivity|].
  destruct (body start s); simpl; auto.
Qed.

(* ================================================================= *)
(** ** Relations respected by every rendering *)

Section Respects.

Variable getEscapedText : string -> string.
Variable _apiModel : ApiModel.

Import IndentedWriter.

Variable R : IMarkdownEmitterContext -> IMarkdownEmitterContext -> Prop.

Hypothesis R_refl : forall c, R c c.
Hypothesis R_trans : forall a b c, R a b -> R b c -> R a c.
Hypothesis R_write : forall s c, R c (updWriter (write s) c).
Hypothesis R_writeLine : forall s c, R c (updWriter (writeLine s) c).
Hypothesis R_ensureNewLine : forall c, R c (updWriter ensureNewLine c).
Hypothesis R_ensureSkippedLine :
  forall c, R c (updWriter ensureSkippedLine c).
Hypothesis R_table :
  forall c c1,
    R (setInsideTable true c) c1 -> R c (setInsideTable false c1).
Hypothesis R_consoleLog : forall line c, R c (consoleLog line c).
Hypothesis R_emphasis :
  forall b i c c1,
    R (setItalicRequested i (setBoldRequested b c)) c1 ->
    R c (setItalicRequested (italicRequested c)
           (setBoldRequested (boldRequested c) c1)).
Hypothesis R_noteBox :
  forall c c1,
    R (updWriter increaseIndent c) c1 -> R c (updWriter decreaseIndent c1).

Ltac peel :=
  match goal with
  | |- R ?c ?c => apply R_refl
  | |- R _ (updWriter (write _) ?c) =>
      apply R_trans with c; [|apply R_write]
  | |- R _ (updWriter (writeLine _) ?c) =>
      apply R_trans with c; [|apply R_writeLine]
  | |- R _ (updWriter ensureNewLine ?c) =>
      apply R_trans with c; [|apply R_ensureNewLine]
  | |- R _ (updWriter ensureSkippedLine ?c) =>
      apply R_trans with c; [|apply R_ensureSkippedLine]
  | |- R _ (consoleLog _ ?c) =>
      apply R_trans with c; [|apply R_consoleLog]
  end.

Lemma bind_respecting (r : Rendering) (k : Rendering) :
  respecting R r -> respecting R k ->
  respecting R (fun c => c1 <- r c ;; k c1).
Proof.
  intros Hr Hk c c' H. destruct (r c) as [c1|] eqn:E; simpl in H;
    [|discriminate].
  eapply R_trans; [apply Hr, E | apply Hk, H].
Qed.

Lemma forEach_respecting {A : Type} (l : list A)
  (body : A -> Rendering) :
  Forall (fun a => respecting R (body a)) l -> respecting R (forEach l body).
Proof.
  induction 1 as [|a l Ha Hl IH]; intros c c' H; simpl in H.
  - injection H as <-. apply R_refl.
  - destruct (body a c) as [c1|] eqn:E; simpl in H; [|discriminate].
    eapply R_trans; [apply Ha, E | apply IH, H].
Qed.

Lemma writeRenderers_respecting (l : list Renderer) :
  Forall (respects R) l -> respecting R (writeRenderers l).
Proof.
  intros H c c' E. refine (forEach_respecting _ _ _ _ _ E).
  eapply Forall_impl; [|exact H]. intros r Hr. apply Hr.
Qed.

Lemma th_respecting (header : option (list Renderer)) (i : nat) :
  match header with Some hs => Forall (respects R) hs | None => True end ->
  respecting R
    (fun context =>
       context <-
         match header with
         | Some headerCells =>
             match nth_error headerCells i with
             | Some cell => cell (updWriter (write "<th>") context) false
             | None => Normal (updWriter (write "<th>") context)
             end
         | None => Normal (updWriter (write "<th>") context)
         end ;;
       Normal (updWriter (write "</th>") context)).
Proof.
  intros Hh d d' Hd.
  apply bind_Normal_inv in Hd as (d1 & E & Hd).
  injection Hd as <-. peel.
  destruct header as [hs|]; [|injection E as <-; repeat peel].
  destruct (nth_error hs i) as [cell|] eqn:En;
    [|injection E as <-; repeat peel].
  apply nth_error_In in En.
  rewrite Forall_forall in Hh.
  eapply R_trans; [|exact (Hh cell En false _ _ E)]. repeat peel.
Qed.

Lemma td_respecting (cell : Renderer) :
  respects R cell ->
  respecting R
    (fun context =>
       context <- cell (updWriter (write "<td>") context) false ;;
       Normal (updWriter (write "</td>") context)).
Proof.
  intros Hcell e e' He.
  apply bind_Normal_inv in He as (e1 & E' & He).
  injection He as <-. peel.
  eapply R_trans; [|apply (Hcell false _ _ E')]. repeat peel.
Qed.

Lemma tr_respecting (row : list Renderer) :
  Forall (respects R) row ->
  respecting R
    (fun context =>
       context <-
         forEach row
           (fun cell context =>
              context <- cell (updWriter (write "<td>") context) false ;;
              Normal (updWriter (write "</td>") context))
           (updWriter (write "<tr>") context) ;;
       Normal (updWriter (writeLine "</tr>")
                 (updWriter (writeLine EmptyString) context))).
Proof.
  intros Hrow d d' Hd.
  apply bind_Normal_inv in Hd as (d1 & E & Hd).
  injection Hd as <-. do 2 peel.
  eapply R_trans; [|refine (forEach_respecting _ _ _ _ _ E)].
  - repeat peel.
  - eapply Forall_impl; [|exact Hrow]. apply td_respecting.
Qed.

Lemma writeTable_respecting (header : option (list Renderer))
  (rows : list (list Renderer)) :
  match header with Some hs => Forall (respects R) hs | None => True end ->
  Forall (Forall (respects R)) rows ->
  respecting R (writeTable header rows).
Proof.
  intros Hh Hr c c' H. unfold writeTable in H.
  rewrite forRange_seq in H.
  apply bind_Normal_inv in H as (c1 & E1 & H).
  apply bind_Normal_inv in H as (c2 & E2 & H).
  injection H as <-.
  eapply R_trans; [apply R_ensureSkippedLine|].
  apply R_table. peel.
  eapply R_trans; [|refine (forEach_respecting _ _ _ _ _ E2)].
  2:{ eapply Forall_impl; [|exact Hr]. apply tr_respecting. }
  do 3 peel.
  eapply R_trans; [|refine (forEach_respecting _ _ _ _ _ E1)].
  2:{ apply Forall_forall. intros i _. now apply th_respecting. }
  repeat peel.
Qed.

Lemma writeLinkTagWithUrlDestination_respecting (tag : DocLinkTag) :
  respecting R (writeLinkTagWithUrlDestination getEscapedText tag).
Proof.
  intros c c' H. unfold writeLinkTagWithUrlDestination in H.
  destruct (linkText tag); [|destruct (urlDestination tag)];
    try discriminate; injection H as <-; repeat peel.
Qed.

Lemma writeLinkTagWithCodeDestination_respecting (tag : DocLinkTag) :
  respecting R (writeLinkTagWithCodeDestination getEscapedText _apiModel tag).
Proof.
  intros c c' H. unfold writeLinkTagWithCodeDestination in H.
  destruct (resolvedApiItem _) as [item|].
  - destruct (Js.truthy _); [|injection H as <-; apply R_refl].
    destruct (negb _); injection H as <-; repeat peel.
  - destruct (Js.truthy _); [|injection H as <-; apply R_refl].
    destruct (codeDestination tag); [|discriminate].
    injection H as <-. repeat peel.
Qed.

(** Every rendering respects R [R]. *)
Lemma writeNode_respects (docNode : DocNode) :
  respects R (writeNode getEscapedText _apiModel docNode).
Proof.
  induction docNode as
    [ text | nodes IH | nodes IH | bold italic nodes IH | code | code |
    | tag | title level | content IH | header rows IHh IHr | kind ]
    using DocNode_tree_ind; intros sib c c' H; simpl in H.
  - (* PlainText *)
    injection H as <-. unfold writePlainText. repeat peel.
  - (* Paragraph *)
    apply bind_Normal_inv in H as (c1 & E & H).
    injection H as <-. peel.
    eapply R_trans; [|refine (writeRenderers_respecting _ _ _ _ E)].
    + repeat peel.
    + now apply Forall_map.
  - (* Section *)
    apply bind_Normal_inv in H as (c1 & E & H).
    injection H as <-. peel.
    eapply R_trans; [|refine (writeRenderers_respecting _ _ _ _ E)].
    + repeat peel.
    + now apply Forall_map.
  - (* EmphasisSpan *)
    apply bind_Normal_inv in H as (c1 & E & H).
    injection H as <-. apply R_emphasis with (b := bold) (i := italic).
    refine (writeRenderers_respecting _ _ _ _ E).
    now apply Forall_map.
  - (* CodeSpan *) injection H as <-. repeat peel.
  - (* FencedCode *) injection H as <-. repeat peel.
  - (* SoftBreak *)
    destruct (negb _); injection H as <-; repeat peel.
  - (* LinkTag *)
    destruct (codeDestination tag); [|destruct (urlDestination tag)].
    + exact (writeLinkTagWithCodeDestination_respecting tag _ _ H).
    + exact (writeLinkTagWithUrlDestination_respecting tag _ _ H).
    + injection H as <-. apply R_refl.
  - (* Heading *) injection H as <-. repeat peel.
  - (* NoteBox *)
    apply bind_Normal_inv in H as (c1 & E & H).
    injection H as <-. peel.
    eapply R_trans; [apply R_ensureNewLine|].
    apply R_noteBox. do 2 peel.
    eapply R_trans; [|exact (IH false _ _ E)]. repeat peel.
  - (* Table *)
    revert H. apply writeTable_respecting.
    + destruct header as [[cs]|]; simpl; [|exact I].
      apply Forall_map. unfold PHeader, PRow in IHh; simpl in IHh.
      eapply Forall_impl; [|exact IHh]. now intros [n] Hn.
    + apply Forall_map. eapply Forall_impl; [|exact IHr].
      intros [cs] Hrow. apply Forall_map.
      unfold PRow in Hrow; simpl in Hrow.
      eapply Forall_impl; [|exact Hrow]. now intros [n] Hn.
  - (* Other *) discriminate.
Qed.

End Respects.

(* ================================================================= *)
(** ** What every rendering leaves unchanged *)

Section Frame.

Variable getEscapedText : string -> string.
Variable _apiModel : ApiModel.

Import IndentedWriter Predicates WriterFacts.

Lemma frame_updWriter (f : IndentedWriter.t -> IndentedWriter.t)
  (c : IMarkdownEmitterContext) :
  indentLevel (f (writer c)) = indentLevel (writer c) ->
  defaultIndentPrefix (f (writer c)) = defaultIndentPrefix (writer c) ->
  frame (updWriter f c) = frame c.
Proof. unfold frame; simpl. now intros -> ->. Qed.

(** A rendering that returns normally leaves the frame as it found it. *)
Lemma writeNode_frame (docNode : DocNode) (c c' : IMarkdownEmitterContext)
  (sib : bool) :
  writeNode getEscapedText _apiModel docNode c sib = Normal c' ->
  frame c' = frame c.
Proof.
  revert sib c c'.
  apply (writeNode_respects getEscapedText _apiModel
           (fun c c' => frame c' = frame c)).
  - reflexivity.
  - intros a b c Hab Hbc. congruence.
  - intros s c. apply frame_updWriter; apply write_indent.
  - intros s c. apply frame_updWriter; unfold writeLine; simpl;
      apply write_indent.
  - intros c. apply frame_updWriter; unfold ensureNewLine;
      destruct (atStartOfLine _); reflexivity.
  - intros c. apply frame_updWriter; unfold ensureSkippedLine;
      destruct (Js.isEmpty _); reflexivity.
  - intros c c1 H. unfold frame in *; simpl in *. exact H.
  - intros line c. reflexivity.
  - intros b i c c1 H. unfold frame in *; simpl in *.
    injection H as _ _ Ho Hl Hp. now rewrite Ho, Hl, Hp.
  - intros c c1 H. unfold frame in *; simpl in *.
    injection H as Hb Hi Ho Hl Hp. now rewrite Hb, Hi, Ho, Hl, Hp.
Qed.

Lemma writeNodes_frame (docNodes : list DocNode)
  (c c' : IMarkdownEmitterContext) :
  writeNodes getEscapedText _apiModel docNodes c = Normal c' ->
  frame c' = frame c.
Proof.
  unfold writeNodes. generalize (Nat.ltb 1 (List.length docNodes)) as sib.
  intro sib. revert c.
  induction docNodes as [|n l IH]; intros c H; simpl in H.
  - now injection H as <-.
  - apply bind_Normal_inv in H as (c1 & E & H).
    rewrite (IH _ H). exact (writeNode_frame _ _ _ _ E).
Qed.

(** Once the inside-table flag is off, a completed rendering leaves it
    off. *)
Lemma writeNode_insideTable_off (docNode : DocNode)
  (c c' : IMarkdownEmitterContext) (sib : bool) :
  writeNode getEscapedText _apiModel docNode c sib = Normal c' ->
  insideTable c = false -> insideTable c' = false.
Proof.
  revert sib c c'.
  apply (writeNode_respects getEscapedText _apiModel
           (fun c c' => insideTable c = false -> insideTable c' = false));
    auto.
Qed.

(** Renderings only touch the console by appending to it, and a rendering
    under an invariant of the buffer that appending and
    [ensureSkippedLine] preserve keeps that invariant. *)
Lemma writeNode_buffer_invariant (Inv : string -> Prop) :
  (forall b s, Inv b -> Inv (b ++ s)) ->
  (forall w, Inv (buffer w) -> Inv (buffer (ensureSkippedLine w))) ->
  forall docNode, respects (fun c c' =>
                              Inv (buffer (writer c)) ->
                              Inv (buffer (writer c')))
                    (writeNode getEscapedText _apiModel docNode).
Proof.
  intros Happ Hskip.
  apply writeNode_respects; simpl; auto.
  - intros s c H. destruct (write_extends s (writer c)) as (x & ->).
    now apply Happ.
  - intros s c H. unfold writeLine.
    destruct (write_extends s (writer c)) as (x & ->).
    simpl. now apply Happ, Happ.
  - intros c H. unfold ensureNewLine.
    destruct (atStartOfLine _); [exact H | now apply Happ].
Qed.

End Frame.

(* ================================================================= *)
(** ** Whitespace: [trim] and the collapsing of runs *)

Module WhitespaceFacts.
Import StringFacts Predicates.

Lemma append_cons (c : ascii) (a b : string) :
  String c a ++ b = String c (a ++ b).
Proof. reflexivity. Qed.

Lemma append_nil_l (a : string) : EmptyString ++ a = a.
Proof. reflexivity. Qed.

Lemma lengthIsZero_isEmpty (s : string) :
  Js.lengthIsZero s = Js.isEmpty s.
Proof. destruct s; reflexivity. Qed.

Lemma trimStart_spec (s : string) :
  exists l, s = l ++ Js.trimStart s /\ allWhiteSpace l = true
            /\ startsWithWhiteSpace (Js.trimStart s) = false.
Proof.
  induction s as [|c s (l & Hl & Hw & Hs)]; simpl.
  - exists EmptyString. auto.
  - destruct (Js.isWhiteSpace c) eqn:E.
    + exists (String c l). repeat split; auto.
      * now rewrite append_cons, <- Hl.
      * unfold allWhiteSpace; simpl. now rewrite E.
    + exists EmptyString. repeat split; auto.
Qed.

Lemma trimEnd_spec (s : string) :
  exists r, s = Js.trimEnd s ++ r /\ allWhiteSpace r = true
            /\ endsWithWhiteSpace (Js.trimEnd s) = false
            /\ startsWithWhiteSpace (Js.trimEnd s)
               = startsWithWhiteSpace s && negb (Js.isEmpty (Js.trimEnd s)).
Proof.
  induction s as [|c s (r & Hr & Hw & He & Hs)]; simpl.
  - exists EmptyString. auto.
  - destruct (Js.isWhiteSpace c) eqn:E; simpl.
    + destruct (Js.isEmpty (Js.trimEnd s)) eqn:Em; simpl.
      * apply isEmpty_true in Em. rewrite Em, append_nil_l in Hr.
        exists (String c r). split; [now rewrite append_nil_l, <- Hr|].
        split; [unfold allWhiteSpace; simpl; now rewrite E|].
        split; [reflexivity | simpl; now rewrite ?E, ?andb_false_r].
      * exists r. split; [now rewrite append_cons, <- Hr|].
        split; [exact Hw|]. split; [|now rewrite E].
        unfold endsWithWhiteSpace in *; simpl.
        destruct (Js.trimEnd s); [discriminate | exact He].
    + exists r. split; [now rewrite append_cons, <- Hr|].
      split; [exact Hw|]. split; [|now rewrite E].
      unfold endsWithWhiteSpace in *; simpl.
      destruct (Js.trimEnd s); simpl; [now rewrite E | exact He].
Qed.

(** [trim] removes a whitespace prefix and a whitespace suffix, and what
    is left neither starts nor ends with whitespace. *)
Lemma trim_spec (s : string) :
  exists l r, s = l ++ Js.trim s ++ r
              /\ allWhiteSpace l = true /\ allWhiteSpace r = true
              /\ startsWithWhiteSpace (Js.trim s) = false
              /\ endsWithWhiteSpace (Js.trim s) = false.
Proof.
  destruct (trimStart_spec s) as (l & Hl & Hlw & Hs).
  destruct (trimEnd_spec (Js.trimStart s)) as (r & Hr & Hrw & He & Hs').
  exists l, r. unfold Js.trim. repeat split; auto.
  - now rewrite <- Hr.
  - rewrite Hs', Hs. reflexivity.
Qed.

Lemma replaceRuns_collapsed (inRun : bool) (s : string) :
  collapsed inRun (Js.replaceRuns inRun s) = true.
Proof.
  revert inRun; induction s as [|c s IH]; intro inRun; simpl;
    [reflexivity|].
  destruct (Js.isWhiteSpace c) eqn:E.
  - destruct inRun; simpl; [apply IH|]. now rewrite IH.
  - simpl. rewrite E. apply IH.
Qed.

Lemma replaceWhitespaceRuns_collapsed (s : string) :
  collapsed false (Js.replaceWhitespaceRuns s) = true.
Proof. apply replaceRuns_collapsed. Qed.

(** Text without whitespace is left as it is. *)
Lemma replaceRuns_no_whitespace (inRun : bool) (s : string) :
  existsb Js.isWhiteSpace (list_ascii_of_string s) = false ->
  Js.replaceRuns inRun s = s.
Proof.
  revert inRun; induction s as [|c s IH]; intros inRun H; simpl in *;
    [reflexivity|].
  apply orb_false_elim in H as [-> H]. now rewrite IH.
Qed.

End WhitespaceFacts.

(* ================================================================= *)
(** ** The layout of written text *)

Module LayoutFacts.
Import IndentedWriter Predicates StringFacts WriterFacts WhitespaceFacts.

Lemma buffer_write (text : string) (w : IndentedWriter.t) :
  buffer (write text w)
  = buffer w ++ indented (indentText w) (atStartOfLine w) text.
Proof.
  revert w; induction text as [|ch rest IH]; intro w; cbn [indented].
  - change (write EmptyString w) with w. now rewrite append_nil_r.
  - change (write (String ch rest) w) with (write rest (writeCharacter ch w)).
    rewrite IH.
    assert (Hi : indentText (writeCharacter ch w) = indentText w).
    { unfold indentText.
      now destruct (writeCharacter_indent ch w) as [-> ->]. }
    rewrite Hi. unfold writeCharacter.
    destruct (Js.isNewline ch) eqn:Hn.
    + rewrite atStartOfLine_append_single, Hn.
      cbn [append buffer]. now rewrite append_cons_assoc.
    + destruct (atStartOfLine w) eqn:Hs.
      * rewrite atStartOfLine_append_char, Hn.
        cbn [append buffer]. now rewrite !append_assoc.
      * rewrite atStartOfLine_append_single, Hn.
        cbn [append buffer]. now rewrite append_cons_assoc.
Qed.

Lemma indented_no_indent (atStart : bool) (text : string) :
  indented EmptyString atStart text = text.
Proof.
  revert atStart; induction text as [|ch rest IH]; intro atStart;
    cbn [indented]; [reflexivity|].
  destruct (Js.isNewline ch), atStart; cbn; now rewrite IH.
Qed.

Lemma indented_line (indent : string) (text : string) :
  hasNewline text = false -> indented indent false text = text.
Proof.
  induction text as [|ch rest IH]; intro H; cbn [indented]; [reflexivity|].
  unfold hasNewline in H. cbn in H. apply orb_false_elim in H as [Hc Hr].
  rewrite Hc. cbn. now rewrite IH.
Qed.

Lemma hasNewline_append (a b : string) :
  hasNewline (a ++ b) = hasNewline a || hasNewline b.
Proof.
  unfold hasNewline. induction a as [|ch a IH]; [reflexivity|].
  rewrite append_cons. cbn [list_ascii_of_string existsb].
  now rewrite IH, orb_assoc.
Qed.

(** Text within one line is written as it is, after the indentation when
    it begins the line. *)
Lemma indented_within_line (indent : string) (atStart : bool)
  (text : string) :
  hasNewline text = false -> Js.isEmpty text = false ->
  indented indent atStart text
  = (if atStart then indent else EmptyString) ++ text.
Proof.
  destruct text as [|ch rest]; [discriminate|]. intros H _.
  change (String ch rest) with (String ch EmptyString ++ rest) in H.
  rewrite hasNewline_append in H. apply orb_false_elim in H as [Hc Hr].
  unfold hasNewline in Hc. cbn in Hc. rewrite orb_false_r in Hc.
  cbn [indented]. rewrite Hc. now rewrite (indented_line _ _ Hr).
Qed.

Lemma writeLine_write (text : string) (w : IndentedWriter.t) :
  writeLine text w = write (text ++ Js.NL) w.
Proof. now rewrite write_append. Qed.

End LayoutFacts.

(* ================================================================= *)
(** ** Per-kind rendering rules *)

Section Rules.

Variable getEscapedText : string -> string.
Variable _apiModel : ApiModel.

Import IndentedWriter Predicates StringFacts WriterFacts WhitespaceFacts
  LayoutFacts.

Lemma writeLine_as_write (s : string) (w : IndentedWriter.t) :
  writeLine s w = write (s ++ Js.NL) w.
Proof. rewrite write_append. reflexivity. Qed.

Lemma updWriter_updWriter (f g : IndentedWriter.t -> IndentedWriter.t)
  (c : IMarkdownEmitterContext) :
  updWriter g (updWriter f c) = updWriter (fun w => g (f w)) c.
Proof. reflexivity. Qed.

Lemma lastCharacter_cases (s : string) :
  Js.lastCharacter s = EmptyString
  \/ exists c, Js.lastCharacter s = String c EmptyString.
Proof.
  induction s as [|c s IH]; simpl; [now left|].
  destruct s; [right; now exists c | exact IH].
Qed.

Lemma isNewline_isWhiteSpace (c : ascii) :
  Js.isNewline c = true -> Js.isWhiteSpace c = true.
Proof.
  unfold Js.isNewline, Js.isWhiteSpace. intros ->.
  now rewrite orb_true_r.
Qed.

(** C6: a heading is wrapped in the tag for its level (level 1 in h2,
    levels 2 and 3 in h3, every other level in h4), its title escaped,
    and is followed by exactly one blank line: the output ends with the
    closing bracket of the tag and two newlines. *)
Theorem heading_tag_and_blank_line (title : string) (level : Z)
  (context : IMarkdownEmitterContext) (sib : bool) :
  let tag : string :=
    if (level =? 1)%Z then "h2"
    else if ((level =? 2) || (level =? 3))%Z then "h3"
    else "h4" in
  let line : string :=
    "<" ++ tag ++ " class=" ++ Js.DQ ++ "doc-heading" ++ Js.DQ ++ ">"
    ++ getEscapedText title ++ "</" ++ tag ++ ">" in
  exists context',
    writeNode getEscapedText _apiModel (DocHeading title level) context sib
    = Normal context'
    /\ context' = updWriter (fun w => append (Js.NL ++ Js.NL) (write line w))
                    context
    /\ exists pre,
        buffer (writer context') = pre ++ ">" ++ Js.NL ++ Js.NL.
Proof.
  intros tag line. eexists. split; [reflexivity|].
  assert (Htag : headingTag level = tag).
  { unfold headingTag, tag.
    destruct (level =? 1)%Z, (level =? 2)%Z, (level =? 3)%Z; reflexivity. }
  simpl. rewrite Htag. fold line.
  rewrite updWriter_updWriter. unfold writeLine, updWriter. simpl.
  change (write EmptyString (append Js.NL (write line (writer context))))
    with (append Js.NL (write line (writer context))).
  rewrite append_append. split; [reflexivity|]. simpl.
  set (body := "<" ++ tag ++ " class=" ++ Js.DQ ++ "doc-heading"
               ++ Js.DQ ++ ">" ++ getEscapedText title ++ "</" ++ tag).
  assert (Hl : line = body ++ ">").
  { unfold line, body. now rewrite !append_assoc. }
  rewrite Hl, write_append.
  change (write ">" ?w) with (writeCharacter ">" w).
  unfold writeCharacter.
  change (Js.isNewline ">") with false. cbv iota.
  destruct (atStartOfLine (write body (writer context))).
  + exists (buffer (write body (writer context))
            ++ indentText (write body (writer context))).
    simpl. now rewrite !append_assoc.
  + exists (buffer (write body (writer context))).
    simpl. now rewrite !append_assoc.
Qed.

(** C8: a soft break writes the break marker exactly when the last
    character written is a character that is not whitespace; when
    nothing has been written, or the last character is whitespace, the
    context is returned unchanged. *)
Theorem softbreak_only_after_non_whitespace
  (context : IMarkdownEmitterContext) (sib : bool) :
  let needed : bool :=
    match peekLastCharacter (writer context) with
    | EmptyString => false
    | String ch _ => negb (Js.isWhiteSpace ch)
    end in
  writeNode getEscapedText _apiModel DocSoftBreak context sib
  = Normal (if needed then updWriter (append "<br />") context
            else context).
Proof.
  intro needed. simpl. unfold needed.
  destruct (lastCharacter_cases (buffer (writer context))) as [E|(ch & E)];
    unfold peekLastCharacter; rewrite E; simpl; [reflexivity|].
  destruct (Js.isWhiteSpace ch) eqn:Ews; simpl; [reflexivity|].
  unfold updWriter. rewrite write_midline; [reflexivity|reflexivity|].
  unfold atStartOfLine, peekLastCharacter. rewrite E.
  destruct (Js.isNewline ch) eqn:Enl; [|reflexivity].
  apply isNewline_isWhiteSpace in Enl. congruence.
Qed.

(** C9: code spans and fenced code hand their code to the writer without
    escaping it, under any indentation: a code span writes its code
    exactly as given, fenced code writes it with the leading and trailing
    whitespace removed.  The buffer gains this text as the writer lays it
    out, that is with the indentation at the start of its lines, and
    exactly this text when there is no indentation or, for a code span,
    when the code is written within one line. *)
Theorem code_is_written_literally (code : string)
  (context : IMarkdownEmitterContext) (sib : bool) :
  let spanOpen : string :=
    "<code class=" ++ Js.DQ ++ "doc-code-span language-javascript"
    ++ Js.DQ ++ ">" in
  let fenceOpen : string :=
    "<pre class=" ++ Js.DQ ++ "doc-fenced-code" ++ Js.DQ ++ ">" ++ Js.NL
    ++ "<code class=" ++ Js.DQ ++ "language-javascript" ++ Js.DQ ++ ">"
    ++ Js.NL in
  let spanText : string := spanOpen ++ code ++ "</code>" in
  let fenceText : string :=
    fenceOpen ++ Js.trim code ++ "</code>" ++ Js.NL ++ "</pre>" ++ Js.NL in
  let indent : string := indentText (writer context) in
  (exists context',
      writeNode getEscapedText _apiModel (DocCodeSpan code) context sib
      = Normal context'
      /\ context' = updWriter (write spanText) context
      /\ buffer (writer context')
         = buffer (writer context)
           ++ indented indent (atStartOfLine (writer context)) spanText
      /\ (indentLevel (writer context) = 0 ->
          buffer (writer context') = buffer (writer context) ++ spanText)
      /\ (hasNewline code = false ->
          buffer (writer context')
          = buffer (writer context)
            ++ (if atStartOfLine (writer context) then indent
                else EmptyString)
            ++ spanText))
  /\ (exists context',
         writeNode getEscapedText _apiModel (DocFencedCode code) context sib
         = Normal context'
         /\ context'
            = updWriter (fun w => write fenceText (ensureNewLine w)) context
         /\ buffer (writer context')
            = buffer (ensureNewLine (writer context))
              ++ indented indent true fenceText
         /\ (indentLevel (writer context) = 0 ->
             buffer (writer context')
             = buffer (ensureNewLine (writer context)) ++ fenceText))
  /\ (exists l r, code = l ++ Js.trim code ++ r
                  /\ allWhiteSpace l = true /\ allWhiteSpace r = true
                  /\ startsWithWhiteSpace (Js.trim code) = false
                  /\ endsWithWhiteSpace (Js.trim code) = false).
Proof.
  intros spanOpen fenceOpen spanText fenceText indent.
  split; [|split]; [| |apply trim_spec].
  - assert (Hc : writeNode getEscapedText _apiModel (DocCodeSpan code)
                   context sib
                 = Normal (updWriter (write spanText) context)).
    { cbn [writeNode]. fold spanOpen. rewrite !updWriter_updWriter.
      unfold updWriter, spanText.
      now rewrite (write_append spanOpen), (write_append code). }
    eexists. split; [exact Hc|]. split; [reflexivity|].
    cbn [updWriter setWriter writer].
    assert (Hb : buffer (write spanText (writer context))
                 = buffer (writer context)
                   ++ indented indent (atStartOfLine (writer context))
                        spanText) by apply buffer_write.
    split; [exact Hb|]. split.
    + intro H0. rewrite Hb. unfold indent, indentText. rewrite H0.
      cbn [Js.repeatString]. now rewrite indented_no_indent.
    + intro Hn. rewrite Hb. f_equal. apply indented_within_line.
      * unfold spanText. rewrite !hasNewline_append, Hn. reflexivity.
      * unfold spanText. rewrite isEmpty_append. reflexivity.
  - assert (Hc : writeNode getEscapedText _apiModel (DocFencedCode code)
                   context sib
                 = Normal (updWriter
                             (fun w => write fenceText (ensureNewLine w))
                             context)).
    { cbn [writeNode]. rewrite !updWriter_updWriter.
      unfold updWriter. f_equal. f_equal.
      rewrite !writeLine_write.
      rewrite <- (write_append _ ("</pre>" ++ Js.NL)).
      rewrite <- (write_append _ (("</code>" ++ Js.NL) ++ _)).
      rewrite <- (write_append _ (Js.trim code ++ _)).
      rewrite <- (write_append _ (_ ++ Js.trim code ++ _)).
      reflexivity. }
    eexists. split; [exact Hc|]. split; [reflexivity|].
    cbn [updWriter setWriter writer].
    assert (Hb : buffer (write fenceText (ensureNewLine (writer context)))
                 = buffer (ensureNewLine (writer context))
                   ++ indented indent true fenceText).
    { rewrite buffer_write, atStartOfLine_ensureNewLine. f_equal.
      unfold indent, indentText, ensureNewLine.
      now destruct (atStartOfLine (writer context)). }
    split; [exact Hb|].
    intro H0. rewrite Hb. unfold indent, indentText. rewrite H0.
    cbn [Js.repeatString]. now rewrite indented_no_indent.
Qed.

(** C7 (amended): a literal-URL link takes the URL as its display text
    when no display text is given, and the given text otherwise, be it
    empty; the text is written between the anchor tags with its
    whitespace runs replaced by single spaces and then escaped. *)
Theorem url_link_display_text (code : option DocDeclarationReference)
  (url : string) (text : option string)
  (context : IMarkdownEmitterContext) :
  let display : string :=
    match text with
    | Some given => given
    | None => url
    end in
  writeLinkTagWithUrlDestination getEscapedText
    (mkDocLinkTag code (Some url) text) context
  = Normal (updWriter
              (write ("<a href=" ++ Js.DQ ++ url ++ Js.DQ ++ ">"
                      ++ getEscapedText (Js.replaceWhitespaceRuns display)
                      ++ "</a>"))
              context)
  /\ collapsed false (Js.replaceWhitespaceRuns display) = true.
Proof.
  intro display. split; [|apply replaceWhitespaceRuns_collapsed].
  unfold writeLinkTagWithUrlDestination, display; simpl.
  destruct text; reflexivity.
Qed.

(** C1 (amended): when the reference resolves to an item for which the
    filename lookup returns a non-empty filename, the display text is the
    given text if that is not the empty string and the item's scoped name
    otherwise.  If this text is the empty string (nothing is trimmed)
    nothing is written and the warning is logged; otherwise the link is
    written, its text with whitespace runs collapsed and escaped. *)
Theorem code_link_resolved (tag : DocLinkTag) (item : ApiItem)
  (filename : string) (context : IMarkdownEmitterContext) :
  resolvedApiItem
    (resolveDeclarationReference _apiModel (codeDestination tag)
       (contextApiItem (options context))) = Some item ->
  onGetFilenameForApiItem (options context) item = Some filename ->
  Js.isEmpty filename = false ->
  writeLinkTagWithCodeDestination getEscapedText _apiModel tag context
  = Normal
      (if Js.isEmpty (codeLinkText tag item)
       then consoleLog
              (colors.yellow "WARNING: Unable to determine link text")
              context
       else updWriter
              (write ("["
                      ++ getEscapedText
                           (Js.replaceWhitespaceRuns (codeLinkText tag item))
                      ++ "](" ++ filename ++ ")"))
              context).
Proof.
  intros Hres Hfile Hne.
  unfold writeLinkTagWithCodeDestination. rewrite Hres, Hfile.
  unfold Js.truthy. rewrite Hne. simpl negb. cbv iota.
  assert (Ht : (if Js.lengthIsZero
                     match linkText tag with
                     | Some t => t
                     | None => EmptyString
                     end
                then getScopedNameWithinPackage item
                else match linkText tag with
                     | Some t => t
                     | None => EmptyString
                     end) = codeLinkText tag item).
  { unfold codeLinkText. destruct (linkText tag) as [t|]; [|reflexivity].
    now rewrite lengthIsZero_isEmpty. }
  cbv zeta. rewrite Ht, lengthIsZero_isEmpty.
  destruct (Js.isEmpty (codeLinkText tag item)); simpl; [reflexivity|].
  rewrite !updWriter_updWriter. unfold updWriter.
  now rewrite (write_append "["), (write_append (getEscapedText _)).
Qed.

(** C2: a symbolic-code link whose item has no filename is dropped
    without a trace: the context is returned as it was.  A link whose
    reference does not resolve leaves the writer as it was and logs one
    warning made of the reference's text and the resolver's message.
    Both complete normally. *)
Theorem code_link_dropped (tag : DocLinkTag)
  (reference : DocDeclarationReference)
  (context : IMarkdownEmitterContext) :
  codeDestination tag = Some reference ->
  let result :=
    resolveDeclarationReference _apiModel (codeDestination tag)
      (contextApiItem (options context)) in
  (forall item,
      resolvedApiItem result = Some item ->
      Js.truthy (onGetFilenameForApiItem (options context) item) = false ->
      writeLinkTagWithCodeDestination getEscapedText _apiModel tag context
      = Normal context)
  /\ (forall message,
         resolvedApiItem result = None ->
         errorMessage result = Some message ->
         Js.isEmpty message = false ->
         writeLinkTagWithCodeDestination getEscapedText _apiModel tag context
         = Normal
             (consoleLog
                (colors.yellow
                   ("WARNING: Unable to resolve reference " ++ Js.DQ
                    ++ emitAsTsdoc reference ++ Js.DQ ++ ": " ++ message))
                context)).
Proof.
  intros Href result. split.
  - intros item Hres Hfile.
    unfold writeLinkTagWithCodeDestination. fold result.
    now rewrite Hres, Hfile.
  - intros message Hres Herr Hne.
    unfold writeLinkTagWithCodeDestination. fold result.
    rewrite Hres, Herr, Href. simpl. now rewrite Hne.
Qed.

End Rules.

(* ================================================================= *)
(** ** Prefixes of the buffer that later output cannot remove *)

Module BufferFacts.
Import IndentedWriter Predicates StringFacts WriterFacts WhitespaceFacts.

Lemma hasContent_cons (c : ascii) (s : string) :
  hasContent (String c s) = negb (Js.isNewline c) || hasContent s.
Proof.
  unfold hasContent. cbn [stripTrailingNewlines].
  destruct (Js.isNewline c), (Js.isEmpty (stripTrailingNewlines s));
    reflexivity.
Qed.

Lemma hasContent_append (a b : string) :
  hasContent (a ++ b) = hasContent a || hasContent b.
Proof.
  induction a as [|c a IH]; [reflexivity|].
  rewrite append_cons, !hasContent_cons, IH. apply orb_assoc.
Qed.

Lemma hasContent_strip (s : string) :
  hasContent (stripTrailingNewlines s) = hasContent s.
Proof.
  induction s as [|c s IH]; [reflexivity|].
  rewrite hasContent_cons. cbn [stripTrailingNewlines].
  destruct (Js.isNewline c) eqn:Ec; cbn [andb negb orb].
  - destruct (Js.isEmpty (stripTrailingNewlines s)) eqn:Es.
    + unfold hasContent at 2. now rewrite Es.
    + now rewrite hasContent_cons, Ec, IH.
  - now rewrite hasContent_cons, Ec.
Qed.

Lemma strip_append (a s : string) :
  hasContent s = true ->
  stripTrailingNewlines (a ++ s) = a ++ stripTrailingNewlines s.
Proof.
  intro Hs. induction a as [|c a IH]; [reflexivity|].
  rewrite !append_cons. cbn [stripTrailingNewlines]. rewrite IH.
  replace (Js.isEmpty (a ++ stripTrailingNewlines s)) with false.
  - now rewrite andb_false_r.
  - rewrite isEmpty_append. unfold hasContent in Hs.
    destruct (Js.isEmpty (stripTrailingNewlines s)); [discriminate|].
    now rewrite andb_false_r.
Qed.

(** A buffer made of newlines only is at the start of a line. *)
Lemma no_content_atStartOfLine (w : IndentedWriter.t) :
  hasContent (buffer w) = false -> atStartOfLine w = true.
Proof.
  unfold atStartOfLine, peekLastCharacter.
  induction (buffer w) as [|c s IH]; [reflexivity|].
  rewrite hasContent_cons. intro H.
  apply orb_false_elim in H as [Hc Hs]. apply negb_false_iff in Hc.
  cbn [Js.lastCharacter]. destruct s; [exact Hc | exact (IH Hs)].
Qed.

Lemma buffer_ensureSkippedLine (w : IndentedWriter.t) :
  buffer (ensureSkippedLine w)
  = if hasContent (buffer w)
    then stripTrailingNewlines (buffer w) ++ Js.NL ++ Js.NL
    else buffer w.
Proof.
  unfold ensureSkippedLine, hasContent.
  now destruct (Js.isEmpty (stripTrailingNewlines (buffer w))).
Qed.

Lemma atStartOfLine_ensureSkippedLine (w : IndentedWriter.t) :
  atStartOfLine (ensureSkippedLine w) = true.
Proof.
  destruct (hasContent (buffer w)) eqn:E.
  - unfold ensureSkippedLine, hasContent in *.
    destruct (Js.isEmpty (stripTrailingNewlines (buffer w)));
      [discriminate|].
    unfold atStartOfLine, peekLastCharacter. cbn [buffer].
    change (Js.NL ++ Js.NL)
      with (Js.NL ++ String (ascii_of_nat 10) EmptyString).
    now rewrite <- !append_assoc, lastCharacter_snoc.
  - apply no_content_atStartOfLine.
    now rewrite buffer_ensureSkippedLine, E.
Qed.

Lemma indentText_ensureSkippedLine (w : IndentedWriter.t) :
  indentText (ensureSkippedLine w) = indentText w.
Proof.
  unfold ensureSkippedLine. now destruct (Js.isEmpty _).
Qed.

(** A line of text without newlines, written at the start of a line. *)
Lemma writeLine_linestart (c : ascii) (s : string) (w : IndentedWriter.t) :
  hasNewline (String c s) = false -> atStartOfLine w = true ->
  writeLine (String c s) w
  = append (indentText w ++ String c s ++ Js.NL) w.
Proof.
  intros Hs Hw. unfold writeLine. rewrite write_linestart by assumption.
  now rewrite append_append, append_assoc.
Qed.

Lemma writeLine_empty (w : IndentedWriter.t) :
  writeLine EmptyString w = append Js.NL w.
Proof. reflexivity. Qed.

Lemma atStartOfLine_append_NL (s : string) (w : IndentedWriter.t) :
  atStartOfLine (append (s ++ Js.NL) w) = true.
Proof. apply (atStartOfLine_append_char (ascii_of_nat 10)). Qed.

Lemma extendsWithContent_append (B b x : string) :
  extendsWithContent B b -> extendsWithContent B (b ++ x).
Proof.
  intros (s & -> & Hs). exists (s ++ x). split.
  - apply append_assoc.
  - now rewrite hasContent_append, Hs.
Qed.

Lemma extendsWithContent_ensureSkippedLine (B : string)
  (w : IndentedWriter.t) :
  extendsWithContent B (buffer w) ->
  extendsWithContent B (buffer (ensureSkippedLine w)).
Proof.
  intros (s & Hb & Hs). rewrite buffer_ensureSkippedLine, Hb.
  rewrite hasContent_append, Hs, orb_true_r, strip_append by exact Hs.
  exists (stripTrailingNewlines s ++ Js.NL ++ Js.NL). split.
  - apply append_assoc.
  - now rewrite hasContent_append, hasContent_strip, Hs.
Qed.

(** Writing text that starts with a character other than a newline
    extends any prefix of the buffer by content. *)
Lemma write_extendsWithContent (B t : string) (c : ascii) (s : string)
  (w : IndentedWriter.t) :
  buffer w = B ++ t -> Js.isNewline c = false ->
  extendsWithContent B (buffer (write (String c s) w)).
Proof.
  intros Hb Hc.
  change (write (String c s) w) with (write s (writeCharacter c w)).
  destruct (write_extends s (writeCharacter c w)) as (x & ->).
  cbn [append buffer]. apply extendsWithContent_append.
  unfold writeCharacter. rewrite Hc.
  destruct (atStartOfLine w); cbn [append buffer]; rewrite Hb.
  - exists (t ++ indentText w ++ String c EmptyString). split.
    + apply append_assoc.
    + rewrite !hasContent_append, hasContent_cons, Hc.
      cbn. now rewrite !orb_true_r.
  - exists (t ++ String c EmptyString). split.
    + apply append_assoc.
    + rewrite !hasContent_append, hasContent_cons, Hc.
      cbn. now rewrite !orb_true_r.
Qed.

End BufferFacts.

(* ================================================================= *)
(** ** Emphasis spans and tables *)

Section Structure.

Variable getEscapedText : string -> string.
Variable _apiModel : ApiModel.

Import IndentedWriter Predicates StringFacts WriterFacts.

(* --------------------------------------------------------------- *)

Lemma writeRenderers_map (docNodes : list DocNode)
  (c : IMarkdownEmitterContext) :
  writeRenderers (map (writeNode getEscapedText _apiModel) docNodes) c
  = writeNodes getEscapedText _apiModel docNodes c.
Proof.
  unfold writeRenderers, writeNodes. rewrite length_map.
  apply forEach_map.
Qed.

Lemma writeNode_emphasisSpan (bold italic : bool) (nodes : list DocNode)
  (c : IMarkdownEmitterContext) (sib : bool) :
  writeNode getEscapedText _apiModel (DocEmphasisSpan bold italic nodes)
    c sib
  = (c1 <- writeNodes getEscapedText _apiModel nodes
             (setItalicRequested italic (setBoldRequested bold c)) ;;
     Normal (setItalicRequested (italicRequested c)
               (setBoldRequested (boldRequested c) c1))).
Proof. cbn [writeNode]. now rewrite writeRenderers_map. Qed.

Lemma forEach_writeNode_frame (docNodes : list DocNode) (sib : bool)
  (c c' : IMarkdownEmitterContext) :
  forEach docNodes
    (fun n c => writeNode getEscapedText _apiModel n c sib) c = Normal c' ->
  frame c' = frame c.
Proof.
  revert c. induction docNodes as [|n l IH]; intros c H.
  - now injection H as <-.
  - cbn [forEach] in H. apply bind_Normal_inv in H as (c1 & E & H).
    rewrite (IH _ H). exact (writeNode_frame _ _ _ _ _ _ E).
Qed.

(** C5: an emphasis span renders its children, in order, from the context
    it was given with the bold and italic flags set to the span's own,
    and returns what they return with the flags put back as they were
    before the span.  Every child is entered, and left, with the span's
    flags, whatever the flags were before the span and whatever spans
    the earlier children hold; a child that is a span itself does the
    same with its own flags, so the innermost span decides. *)
Theorem emphasis_flags_are_scoped (bold italic : bool)
  (nodes : list DocNode) (context context' : IMarkdownEmitterContext)
  (sib : bool) :
  writeNode getEscapedText _apiModel (DocEmphasisSpan bold italic nodes)
    context sib = Normal context' ->
  let inside : IMarkdownEmitterContext :=
    setItalicRequested italic (setBoldRequested bold context) in
  let child (n : DocNode) (c : IMarkdownEmitterContext) :=
    writeNode getEscapedText _apiModel n c (Nat.ltb 1 (List.length nodes)) in
  (boldRequested context' = boldRequested context
   /\ italicRequested context' = italicRequested context)
  /\ (exists last,
         forEach nodes child inside = Normal last
         /\ context'
            = setItalicRequested (italicRequested context)
                (setBoldRequested (boldRequested context) last))
  /\ forall before node after,
      nodes = (before ++ node :: after)%list ->
      exists entered left last,
        forEach before child inside = Normal entered
        /\ boldRequested entered = bold
        /\ italicRequested entered = italic
        /\ child node entered = Normal left
        /\ boldRequested left = bold
        /\ italicRequested left = italic
        /\ forEach after child left = Normal last
        /\ context'
           = setItalicRequested (italicRequested context)
               (setBoldRequested (boldRequested context) last)
        /\ forall bold' italic' nodes',
            node = DocEmphasisSpan bold' italic' nodes' ->
            exists last',
              writeNodes getEscapedText _apiModel nodes'
                (setItalicRequested italic'
                   (setBoldRequested bold' entered))
              = Normal last'
              /\ left = setItalicRequested italic
                          (setBoldRequested bold last').
Proof.
  rewrite writeNode_emphasisSpan. intros H inside child.
  apply bind_Normal_inv in H as (c1 & E & H). injection H as <-.
  split; [split; reflexivity|]. unfold writeNodes in E. fold child in E.
  fold inside in E.
  split; [exists c1; split; [exact E | reflexivity]|].
  intros before node after Hn.
  pose proof E as E'.
  rewrite Hn, forEach_app in E'.
  apply bind_Normal_inv in E' as (entered & Eb & E').
  cbn [forEach] in E'. apply bind_Normal_inv in E' as (left & Ec & Ea).
  exists entered, left, c1.
  pose proof (forEach_writeNode_frame _ _ _ _ Eb) as Fb.
  pose proof (writeNode_frame _ _ _ _ _ _ Ec) as Fc.
  rewrite Fb in Fc. unfold frame in Fb, Fc; cbn in Fb, Fc.
  injection Fb as Hb Hi _ _ _. injection Fc as Hb' Hi' _ _ _.
  repeat (split; [assumption || reflexivity|]).
  intros bold' italic' nodes' ->. unfold child in Ec.
  rewrite writeNode_emphasisSpan in Ec.
  apply bind_Normal_inv in Ec as (last' & El & Ec).
  exists last'. split; [exact El|].
  injection Ec as <-. now rewrite Hb, Hi.
Qed.

(* --------------------------------------------------------------- *)

Lemma tableColumnCount_max {A : Type} (header : option (list A))
  (rows : list (list A)) :
  tableColumnCount header rows
  = Nat.max (match header with
             | Some headerCells => List.length headerCells
             | None => 0
             end)
      (list_max (map (@List.length A) rows)).
Proof.
  unfold tableColumnCount.
  generalize (match header with
              | Some headerCells => List.length headerCells
              | None => 0
              end) as start.
  induction rows as [|row rows IH]; intro start; cbn [fold_left map].
  - cbn. lia.
  - rewrite IH. change (list_max (List.length row :: ?l))
      with (Nat.max (List.length row) (list_max l)).
    destruct (Nat.ltb_spec start (List.length row)); lia.
Qed.

Lemma nth_error_nil_seq {A : Type} (start count : nat) :
  map (@nth_error A []) (seq start count) = repeat None count.
Proof.
  revert start; induction count as [|k IH]; intro start; cbn;
    [reflexivity|].
  rewrite IH. now destruct start.
Qed.

(** Indexing a list at [0 .. n-1], with [n] at least its length, gives its
    elements followed by the missing ones. *)
Lemma nth_error_seq {A : Type} (l : list A) (n : nat) :
  List.length l <= n ->
  map (nth_error l) (seq 0 n)
  = (map Some l ++ repeat None (n - List.length l))%list.
Proof.
  revert n; induction l as [|a l IH]; intros n Hn.
  - rewrite nth_error_nil_seq. cbn. now rewrite Nat.sub_0_r.
  - destruct n as [|n]; [cbn in Hn; lia|].
    cbn [seq map nth_error List.length app]. rewrite <- seq_shift, map_map.
    cbn [nth_error]. rewrite IH by (cbn in Hn; lia).
    reflexivity.
Qed.

Lemma specColumnCount_header (header : option DocTableRow)
  (rows : list DocTableRow) :
  List.length (match header with Some row => cells row | None => [] end)
  <= specColumnCount header rows.
Proof. unfold specColumnCount. destruct header; cbn; lia. Qed.

Lemma forEach_Normal {A : Type} (l : list A) (body : A -> Rendering) :
  Forall (fun a => forall c, exists c', body a c = Normal c') l ->
  forall c, exists c', forEach l body c = Normal c'.
Proof.
  induction 1 as [|a l Ha _ IH]; intro c; cbn [forEach].
  - now exists c.
  - destruct (Ha c) as (c1 & ->). apply IH.
Qed.

Lemma writeTable_specTable (header : option DocTableRow)
  (rows : list DocTableRow) (context : IMarkdownEmitterContext)
  (sib : bool) :
  writeNode getEscapedText _apiModel (DocTable header rows) context sib
  = (specTable getEscapedText _apiModel) header rows context.
Proof.
  cbn [writeNode]. unfold writeTable, specTable.
  set (render := fun cell : DocTableCell =>
                   match cell with
                   | mkDocTableCell n => writeNode getEscapedText _apiModel n
                   end).
  set (renderRow := fun row : DocTableRow =>
                      match row with
                      | mkDocTableRow cs => map render cs
                      end).
  assert (Hrow : forall row, renderRow row = map render (cells row)).
  { now intros [cs]. }
  assert (Hcc : tableColumnCount (option_map renderRow header)
                  (map renderRow rows) = specColumnCount header rows).
  { rewrite tableColumnCount_max. unfold specColumnCount. f_equal.
    - destruct header as [row|]; [|reflexivity].
      cbn. now rewrite Hrow, length_map.
    - rewrite map_map. f_equal. apply map_ext. intro row.
      now rewrite Hrow, length_map. }
  rewrite Hcc, forRange_seq.
  set (c0 := updWriter (writeLine "<tr>") _).
  assert (Hhead :
           forEach (seq 0 (specColumnCount header rows))
             (fun i context =>
                context <-
                  match option_map renderRow header with
                  | Some headerCells =>
                      match nth_error headerCells i with
                      | Some cell =>
                          cell (updWriter (write "<th>") context) false
                      | None => Normal (updWriter (write "<th>") context)
                      end
                  | None => Normal (updWriter (write "<th>") context)
                  end ;;
                Normal (updWriter (write "</th>") context)) c0
           = forEach (specHeaderRow header rows)
               (writeHeaderCell getEscapedText _apiModel) c0).
  { unfold specHeaderRow.
    rewrite <- nth_error_seq by apply specColumnCount_header.
    rewrite forEach_map. apply forEach_ext. intros i c.
    unfold writeHeaderCell.
    destruct header as [row|]; cbn [option_map].
    - rewrite Hrow, nth_error_map.
      destruct (nth_error (cells row) i) as [[n]|]; reflexivity.
    - now destruct i. }
  rewrite Hhead.
  destruct (forEach (specHeaderRow header rows)
              (writeHeaderCell getEscapedText _apiModel) c0)
    as [c1|e]; [|reflexivity].
  cbn [bind]. rewrite forEach_map.
  f_equal.
  rewrite (forEach_ext rows _ (writeDataRow getEscapedText _apiModel));
    [reflexivity|].
  intros row c. unfold writeDataRow.
  rewrite Hrow, forEach_map.
  rewrite (forEach_ext (cells row) _
             (writeDataCell getEscapedText _apiModel)); [reflexivity|].
  now intros [n] d.
Qed.

(** C3: the header row of a table has one cell per column, the number of
    columns being the larger of the header's cell count (0 without a
    header) and the longest data row's cell count; header cells beyond
    the given ones are written empty; every data row is written with its
    own cells and nothing more; and a table whose cells all render
    normally renders normally, whatever the lengths of its rows. *)
Theorem table_columns_and_cells (header : option DocTableRow)
  (rows : list DocTableRow) (context : IMarkdownEmitterContext)
  (sib : bool) :
  tableColumnCount (headerCells header) (map cells rows)
  = specColumnCount header rows
  /\ List.length (specHeaderRow header rows) = specColumnCount header rows
  /\ writeNode getEscapedText _apiModel (DocTable header rows) context sib
     = (specTable getEscapedText _apiModel) header rows context
  /\ (writeHeaderCell getEscapedText _apiModel) None context
     = Normal (updWriter (write "<th></th>") context)
  /\ ((forall cell c,
          In cell (allCells header rows) ->
          exists c',
            writeNode getEscapedText _apiModel (content cell) c false
            = Normal c') ->
      exists context',
        writeNode getEscapedText _apiModel (DocTable header rows)
          context sib = Normal context').
Proof.
  split; [|split; [|split; [|split]]].
  - rewrite tableColumnCount_max. unfold specColumnCount, headerCells.
    rewrite map_map. now destruct header.
  - unfold specHeaderRow.
    rewrite length_app, length_map, repeat_length.
    pose proof (specColumnCount_header header rows). lia.
  - apply writeTable_specTable.
  - unfold writeHeaderCell. cbn [bind].
    rewrite updWriter_updWriter. unfold updWriter.
    now rewrite <- (write_append "<th>" "</th>").
  - intro Hcells. rewrite writeTable_specTable. unfold specTable.
    set (c0 := updWriter (writeLine "<tr>") _).
    destruct (forEach_Normal (specHeaderRow header rows)
                (writeHeaderCell getEscapedText _apiModel))
      with (c := c0) as (c1 & ->).
    { apply Forall_forall. intros [cell|] Hin c; unfold writeHeaderCell.
      - destruct (Hcells cell (updWriter (write "<th>") c)) as (c' & ->).
        + unfold specHeaderRow in Hin. apply in_app_or in Hin as [Hin|Hin].
          * apply in_map_iff in Hin as (x & [= ->] & Hx).
            unfold allCells. apply in_or_app. now left.
          * apply repeat_spec in Hin. discriminate.
        + cbn [bind]. eauto.
      - cbn [bind]. eauto. }
    cbn [bind].
    set (c2 := updWriter (writeLine "</thead>") _).
    destruct (forEach_Normal rows (writeDataRow getEscapedText _apiModel))
      with (c := c2)
      as (c3 & ->); [|cbn [bind]; eauto].
    apply Forall_forall. intros row Hrow c. unfold writeDataRow.
    destruct (forEach_Normal (cells row)
                (writeDataCell getEscapedText _apiModel))
      with (c := updWriter (write "<tr>") c) as (c' & ->);
      [|cbn [bind]; eauto].
    apply Forall_forall. intros cell Hcell d. unfold writeDataCell.
    destruct (Hcells cell (updWriter (write "<td>") d)) as (d' & ->).
    + unfold allCells. apply in_or_app. right.
      apply in_flat_map. eauto.
    + cbn [bind]. eauto.
Qed.

(* --------------------------------------------------------------- *)









End Structure.

(* ================================================================= *)
(** ** The text of a table *)

Section TableOutput.

Variable getEscapedText : string -> string.
Variable _apiModel : ApiModel.

Import IndentedWriter Predicates StringFacts WriterFacts WhitespaceFacts
  BufferFacts.

Lemma frame_indentText (c c' : IMarkdownEmitterContext) :
  frame c' = frame c -> indentText (writer c') = indentText (writer c).
Proof.
  unfold frame, indentText. intro H. injection H as _ _ _ Hl Hp.
  now rewrite Hl, Hp.
Qed.

Lemma frame_write (s : string) (c : IMarkdownEmitterContext) :
  frame (updWriter (write s) c) = frame c.
Proof. apply frame_updWriter; apply write_indent. Qed.

Lemma line_at_linestart (s : string) (w : IndentedWriter.t) :
  hasNewline s = false -> Js.isEmpty s = false -> atStartOfLine w = true ->
  buffer (writeLine s w) = buffer w ++ indentText w ++ s ++ Js.NL
  /\ atStartOfLine (writeLine s w) = true
  /\ indentText (writeLine s w) = indentText w.
Proof.
  intros Hs He Hw. destruct s as [|c s]; [discriminate|].
  rewrite writeLine_linestart by assumption.
  split; [reflexivity|]. split; [|reflexivity].
  rewrite <- append_assoc. apply atStartOfLine_append_NL.
Qed.

Lemma writeLine_extends (s : string) (w : IndentedWriter.t) :
  exists x, buffer (writeLine s w) = buffer w ++ x.
Proof.
  unfold writeLine. destruct (write_extends s w) as (x & ->).
  exists (x ++ Js.NL). cbn [append buffer]. apply append_assoc.
Qed.

Lemma node_keeps_prefix (B : string) (docNode : DocNode)
  (c c' : IMarkdownEmitterContext) (sib : bool) :
  writeNode getEscapedText _apiModel docNode c sib = Normal c' ->
  extendsWithContent B (buffer (writer c)) ->
  extendsWithContent B (buffer (writer c')).
Proof.
  intro H.
  refine (writeNode_buffer_invariant getEscapedText _apiModel
            (extendsWithContent B) _ _ docNode sib c c' H).
  - intros b s. apply extendsWithContent_append.
  - apply extendsWithContent_ensureSkippedLine.
Qed.

Lemma write_keeps_prefix (B s : string) (c : IMarkdownEmitterContext) :
  extendsWithContent B (buffer (writer c)) ->
  extendsWithContent B (buffer (writer (updWriter (write s) c))).
Proof.
  cbn [updWriter setWriter writer].
  destruct (write_extends s (writer c)) as (x & ->).
  apply extendsWithContent_append.
Qed.

Lemma writeLine_keeps_prefix (B s : string) (c : IMarkdownEmitterContext) :
  extendsWithContent B (buffer (writer c)) ->
  extendsWithContent B (buffer (writer (updWriter (writeLine s) c))).
Proof.
  cbn [updWriter setWriter writer].
  destruct (writeLine_extends s (writer c)) as (x & ->).
  apply extendsWithContent_append.
Qed.

Lemma headerCell_prefix (B t : string) (cell : option DocTableCell)
  (c c' : IMarkdownEmitterContext) :
  writeHeaderCell getEscapedText _apiModel cell c = Normal c' ->
  buffer (writer c) = B ++ t ->
  extendsWithContent B (buffer (writer c')) /\ frame c' = frame c.
Proof.
  unfold writeHeaderCell. intros H Hb.
  apply bind_Normal_inv in H as (d & Hd & H). injection H as <-.
  assert (H1 : extendsWithContent B
                 (buffer (writer (updWriter (write "<th>") c)))).
  { exact (write_extendsWithContent B t "<" "th>" (writer c) Hb eq_refl). }
  destruct cell as [cell|].
  - split.
    + apply write_keeps_prefix. exact (node_keeps_prefix _ _ _ _ _ Hd H1).
    + rewrite frame_write.
      rewrite (writeNode_frame _ _ _ _ _ _ Hd). apply frame_write.
  - injection Hd as <-. split.
    + now apply write_keeps_prefix.
    + now rewrite !frame_write.
Qed.

Lemma headerCells_prefix (B : string) (l : list (option DocTableCell)) :
  forall (t : string) (c c' : IMarkdownEmitterContext),
    forEach l (writeHeaderCell getEscapedText _apiModel) c = Normal c' ->
    buffer (writer c) = B ++ t ->
    (exists t', buffer (writer c') = B ++ t') /\ frame c' = frame c.
Proof.
  induction l as [|cell l IH]; intros t c c' H Hb; cbn [forEach] in H.
  - injection H as <-. split; [now exists t | reflexivity].
  - apply bind_Normal_inv in H as (c1 & E & H).
    destruct (headerCell_prefix B t cell c c1 E Hb) as ((s & Hs & _) & F1).
    destruct (IH s c1 c' H Hs) as (Ht & F). split; [exact Ht|].
    now rewrite F.
Qed.

Lemma dataCells_keep_prefix (B : string) (l : list DocTableCell) :
  forall c c' : IMarkdownEmitterContext,
    forEach l (writeDataCell getEscapedText _apiModel) c = Normal c' ->
    extendsWithContent B (buffer (writer c)) ->
    extendsWithContent B (buffer (writer c')).
Proof.
  induction l as [|cell l IH]; intros c c' H Hb; cbn [forEach] in H.
  - now injection H as <-.
  - apply bind_Normal_inv in H as (c1 & E & H). apply (IH _ _ H).
    unfold writeDataCell in E.
    apply bind_Normal_inv in E as (d & Hd & E). injection E as <-.
    apply write_keeps_prefix.
    apply (node_keeps_prefix _ _ _ _ _ Hd).
    now apply write_keeps_prefix.
Qed.

Lemma dataRows_prefix (B : string) (l : list DocTableRow) :
  forall (t : string) (c c' : IMarkdownEmitterContext),
    forEach l (writeDataRow getEscapedText _apiModel) c = Normal c' ->
    buffer (writer c) = B ++ t ->
    exists t', buffer (writer c') = B ++ t'.
Proof.
  induction l as [|row l IH]; intros t c c' H Hb; cbn [forEach] in H.
  - injection H as <-. now exists t.
  - apply bind_Normal_inv in H as (c1 & E & H).
    unfold writeDataRow in E.
    apply bind_Normal_inv in E as (d & Hd & E). injection E as <-.
    assert (H1 : extendsWithContent B
                   (buffer (writer (updWriter (write "<tr>") c)))).
    { exact (write_extendsWithContent B t "<" "tr>" (writer c) Hb eq_refl). }
    apply (dataCells_keep_prefix B _ _ _ Hd) in H1.
    apply (writeLine_keeps_prefix B EmptyString) in H1.
    apply (writeLine_keeps_prefix B "</tr>") in H1.
    destruct H1 as (s & Hs & _). exact (IH s _ _ H Hs).
Qed.

(** C4: a table that completes has written, after the text that was
    there (with one blank line after it when there was any text other
    than newlines), the opening of the table and a header section, with
    its row, whether or not the table has a header. *)
Theorem table_header_section_after_blank_line
  (header : option DocTableRow) (rows : list DocTableRow)
  (context context' : IMarkdownEmitterContext) (sib : bool) :
  writeNode getEscapedText _apiModel (DocTable header rows) context sib
  = Normal context' ->
  let before : string := buffer (writer context) in
  let separated : string :=
    if hasContent before
    then stripTrailingNewlines before ++ Js.NL ++ Js.NL
    else before in
  let indent : string := indentText (writer context) in
  exists headerCellsText rowsText : string,
    buffer (writer context')
    = separated
      ++ indent ++ "<table class=" ++ Js.DQ ++ "doc-table" ++ Js.DQ ++ ">"
      ++ Js.NL
      ++ indent ++ "<thead>" ++ Js.NL
      ++ indent ++ "<tr>" ++ Js.NL
      ++ headerCellsText ++ Js.NL
      ++ indent ++ "</tr>" ++ Js.NL
      ++ indent ++ "</thead>" ++ Js.NL
      ++ rowsText.
Proof.
  intros H before separated indent.
  rewrite writeTable_specTable in H. unfold specTable in H.
  apply bind_Normal_inv in H as (c1 & E1 & H).
  apply bind_Normal_inv in H as (c2 & E2 & H).
  injection H as <-.
  set (w1 := ensureSkippedLine (writer context)) in *.
  assert (Hw1 : buffer w1 = separated)
    by apply buffer_ensureSkippedLine.
  assert (Hi1 : indentText w1 = indent)
    by apply indentText_ensureSkippedLine.
  pose proof (atStartOfLine_ensureSkippedLine (writer context)) as Hs1.
  fold w1 in Hs1.
  set (tableOpen := "<table class=" ++ Js.DQ ++ "doc-table" ++ Js.DQ ++ ">")
    in *.
  destruct (line_at_linestart tableOpen w1 eq_refl eq_refl Hs1)
    as (Hb2 & Hs2 & Hi2).
  set (w2 := writeLine tableOpen w1) in *.
  destruct (line_at_linestart "<thead>" w2 eq_refl eq_refl Hs2)
    as (Hb3 & Hs3 & Hi3).
  set (w3 := writeLine "<thead>" w2) in *.
  destruct (line_at_linestart "<tr>" w3 eq_refl eq_refl Hs3)
    as (Hb4 & Hs4 & Hi4).
  set (w4 := writeLine "<tr>" w3) in *.
  match type of E1 with
  | forEach _ _ ?c = _ => set (c0 := c) in *
  end.
  assert (Hc0 : writer c0 = w4) by reflexivity.
  destruct (headerCells_prefix (buffer w4) _ EmptyString c0 c1 E1)
    as ((hs & Hhs) & F1).
  { now rewrite Hc0, append_nil_r. }
  apply frame_indentText in F1. rewrite Hc0 in F1.
  set (w5 := writeLine EmptyString (writer c1)) in *.
  assert (Hb5 : buffer w5 = buffer (writer c1) ++ Js.NL) by reflexivity.
  assert (Hs5 : atStartOfLine w5 = true).
  { unfold w5. rewrite writeLine_empty.
    apply (atStartOfLine_append_NL EmptyString). }
  assert (Hi5 : indentText w5 = indentText (writer c1)) by reflexivity.
  destruct (line_at_linestart "</tr>" w5 eq_refl eq_refl Hs5)
    as (Hb6 & Hs6 & Hi6).
  set (w6 := writeLine "</tr>" w5) in *.
  destruct (line_at_linestart "</thead>" w6 eq_refl eq_refl Hs6)
    as (Hb7 & Hs7 & Hi7).
  set (w7 := writeLine "</thead>" w6) in *.
  match type of E2 with
  | forEach _ _ ?c = _ => set (c1' := c) in *
  end.
  assert (Hc1 : writer c1' = w7) by reflexivity.
  destruct (dataRows_prefix (buffer w7) _ EmptyString c1' c2 E2)
    as (rs & Hrs).
  { now rewrite Hc1, append_nil_r. }
  cbn [updWriter setWriter setInsideTable writer].
  destruct (writeLine_extends "</table>" (writer c2)) as (x & ->).
  exists hs, (rs ++ x).
  rewrite Hrs, Hb7, Hb6, Hb5, Hhs, Hb4, Hb3, Hb2, Hw1.
  rewrite Hi6, Hi5, F1, Hi4, Hi3, Hi2, Hi1.
  unfold tableOpen. clearbody separated indent.
  rewrite !append_assoc. reflexivity.
Qed.

End TableOutput.

(* ================================================================= *)
(** ** File names of API items *)

Section FileNameFacts.

Import HtmlDocumenter FileNames StringFacts WhitespaceFacts.

Variable getSafeFilenameForName : string -> string.
Variable getUnscopedName : string -> string.

Lemma length_append (a b : string) :
  String.length (a ++ b) = String.length a + String.length b.
Proof.
  induction a as [|c a IH]; [reflexivity|].
  rewrite append_cons. cbn [String.length]. now rewrite IH.
Qed.

Lemma append_cancel_l (a x y : string) : a ++ x = a ++ y -> x = y.
Proof.
  induction a as [|c a IH]; [trivial|].
  rewrite !append_cons. intro H. injection H as H. exact (IH H).
Qed.

Lemma append_cancel_r (x y c : string) : x ++ c = y ++ c -> x = y.
Proof.
  revert y. induction x as [|a x IH]; intros [|b y] H.
  - reflexivity.
  - apply (f_equal String.length) in H.
    rewrite append_nil_l, append_cons in H. cbn [String.length] in H.
    rewrite length_append in H. lia.
  - apply (f_equal String.length) in H.
    rewrite append_nil_l, append_cons in H. cbn [String.length] in H.
    rewrite length_append in H. lia.
  - rewrite !append_cons in H. injection H as -> H. f_equal. exact (IH _ H).
Qed.

Lemma to_int_nonnil (n : Z) :
  Z.to_int n <> Decimal.Pos Decimal.Nil
  /\ Z.to_int n <> Decimal.Neg Decimal.Nil.
Proof.
  destruct n as [|p|p]; cbn; split; try discriminate;
    intro H; injection H as H; exact (Unsigned.to_uint_nonnil p H).
Qed.

(** Different integers print differently. *)
Lemma numberToString_inj (a b : Z) :
  numberToString a = numberToString b -> a = b.
Proof.
  unfold numberToString. intro H.
  apply (f_equal NilZero.int_of_string) in H.
  destruct (to_int_nonnil a) as (Ha1 & Ha2).
  destruct (to_int_nonnil b) as (Hb1 & Hb2).
  rewrite !NilZero.isi in H by assumption.
  injection H as H. now apply DecimalZ.to_int_inj.
Qed.

Lemma fold_extendBaseName_app (l1 l2 : list HierarchyItem) (b : string) :
  fold_left (extendBaseName getSafeFilenameForName getUnscopedName)
    (l1 ++ l2)%list b
  = fold_left (extendBaseName getSafeFilenameForName getUnscopedName) l2
      (fold_left (extendBaseName getSafeFilenameForName getUnscopedName)
         l1 b).
Proof. apply fold_left_app. Qed.

(** Below the last package the base name grows by one dotted name per
    named item. *)
Lemma fold_extendBaseName_no_package (l : list HierarchyItem) (b : string) :
  forallb (fun h => negb (isPackage (kind h))) l = true ->
  fold_left (extendBaseName getSafeFilenameForName getUnscopedName) l b
  = b ++ dotJoined getSafeFilenameForName (filter isNamed l).
Proof.
  revert b. induction l as [|h l IH]; intros b H; cbn [fold_left filter].
  - cbn. now rewrite append_nil_r.
  - cbn [forallb] in H. apply andb_prop in H as [Hh Hl].
    rewrite (IH _ Hl). unfold extendBaseName, isNamed.
    destruct (kind h); try discriminate; try reflexivity.
    cbn [dotJoined fold_right]. now rewrite !append_assoc.
Qed.

(** X1: what stands above a package in the hierarchy never shows in the file
    name: two hierarchies that agree from a package on give the same
    name. *)
Theorem filename_ignores_what_is_above_a_package
  (item : HierarchyItem) (above above' : list HierarchyItem)
  (package : HierarchyItem) (below : list HierarchyItem) :
  kind package = ApiItemKind.Package ->
  _getFilenameForApiItem getSafeFilenameForName getUnscopedName
    (mkDocumentedItem item (above ++ package :: below)%list)
  = _getFilenameForApiItem getSafeFilenameForName getUnscopedName
      (mkDocumentedItem item (above' ++ package :: below)%list).
Proof.
  intro Hp. unfold _getFilenameForApiItem. cbn [self getHierarchy].
  assert (Hreset : forall b,
             extendBaseName getSafeFilenameForName getUnscopedName b package
             = getSafeFilenameForName
                 (getUnscopedName (displayName (apiItem package)))).
  { intro b. unfold extendBaseName. now rewrite Hp. }
  destruct (kind item); try reflexivity;
    rewrite !fold_extendBaseName_app; cbn [fold_left];
    now rewrite !Hreset.
Qed.

(** X2: the model and the entry points of a hierarchy add nothing to the
    file name: leaving them out of the hierarchy gives the same name. *)
Theorem filename_skips_model_and_entry_points (item : DocumentedItem) :
  _getFilenameForApiItem getSafeFilenameForName getUnscopedName item
  = _getFilenameForApiItem getSafeFilenameForName getUnscopedName
      (mkDocumentedItem (self item) (filter isNamed (getHierarchy item))).
Proof.
  unfold _getFilenameForApiItem. cbn [self getHierarchy].
  assert (H : forall l b,
             fold_left (extendBaseName getSafeFilenameForName getUnscopedName)
               l b
             = fold_left
                 (extendBaseName getSafeFilenameForName getUnscopedName)
                 (filter isNamed l) b).
  { induction l as [|h l IH]; intro b; [reflexivity|].
    cbn [fold_left filter].
    destruct (isNamed h) eqn:E; cbn [fold_left]; [apply IH|].
    rewrite <- IH. f_equal. unfold isNamed in E. unfold extendBaseName.
    destruct (kind h); [reflexivity | reflexivity | discriminate
                        | discriminate]. }
  now rewrite <- H.
Qed.

(** X3: the file name of an item other than the model is the safe unscoped
    name of the last package of its hierarchy, then a dot and the
    qualified name of every named item below that package, then the
    extension; without a package it is the dotted names alone. *)
Theorem filename_is_package_and_dotted_names (item : DocumentedItem) :
  isModel (kind (self item)) = false ->
  (forall above package below,
      getHierarchy item = (above ++ package :: below)%list ->
      kind package = ApiItemKind.Package ->
      forallb (fun h => negb (isPackage (kind h))) below = true ->
      _getFilenameForApiItem getSafeFilenameForName getUnscopedName item
      = getSafeFilenameForName
          (getUnscopedName (displayName (apiItem package)))
        ++ dotJoined getSafeFilenameForName (filter isNamed below)
        ++ ".html")
  /\ (forallb (fun h => negb (isPackage (kind h))) (getHierarchy item)
      = true ->
      _getFilenameForApiItem getSafeFilenameForName getUnscopedName item
      = dotJoined getSafeFilenameForName
          (filter isNamed (getHierarchy item))
        ++ ".html").
Proof.
  intro Hm.
  assert (Hf : _getFilenameForApiItem getSafeFilenameForName getUnscopedName
                 item
               = fold_left
                   (extendBaseName getSafeFilenameForName getUnscopedName)
                   (getHierarchy item) EmptyString ++ ".html").
  { unfold _getFilenameForApiItem. destruct (kind (self item));
      [discriminate | reflexivity | reflexivity | reflexivity]. }
  split.
  - intros above package below Hh Hp Hb.
    rewrite Hf, Hh, fold_extendBaseName_app. cbn [fold_left].
    rewrite fold_extendBaseName_no_package by exact Hb.
    unfold extendBaseName. rewrite Hp. now rewrite append_assoc.
  - intro Hb. rewrite Hf, fold_extendBaseName_no_package by exact Hb.
    reflexivity.
Qed.

Lemma overload_index_of_link (member : ApiItem) (kindName : string)
  (i j : Z) (hierarchy : list HierarchyItem) :
  (1 <= i)%Z -> (1 <= j)%Z ->
  let overload (index : Z) : DocumentedItem :=
    let h := mkHierarchyItem member (ApiItemKind.Other kindName)
               (Some index) in
    mkDocumentedItem h (hierarchy ++ [h])%list in
  _getLinkFilenameForApiItem getSafeFilenameForName getUnscopedName
    (overload i)
  = _getLinkFilenameForApiItem getSafeFilenameForName getUnscopedName
      (overload j) ->
  i = j.
Proof.
  intros Hi Hj overload H. unfold _getLinkFilenameForApiItem in H.
  apply append_cancel_l in H.
  unfold overload, _getFilenameForApiItem in H.
  cbn [self getHierarchy kind] in H.
  rewrite !fold_extendBaseName_app in H. cbn [fold_left] in H.
  unfold extendBaseName in H. cbn [kind] in H.
  apply append_cancel_r in H. apply append_cancel_l in H.
  apply append_cancel_l in H.
  unfold qualifiedNameOf in H. cbn [overloadIndex apiItem] in H.
  destruct (Z.ltb_spec 1 i) as [Hi'|Hi'], (Z.ltb_spec 1 j) as [Hj'|Hj'].
  - apply append_cancel_l in H. apply append_cancel_l in H.
    apply numberToString_inj in H. lia.
  - rewrite <- (append_nil_r (getSafeFilenameForName (displayName member)))
      in H at 2.
    apply append_cancel_l in H. discriminate.
  - rewrite <- (append_nil_r (getSafeFilenameForName (displayName member)))
      in H at 1.
    apply append_cancel_l in H. discriminate.
  - lia.
Qed.

(** X4: the overloads of one member get different pages: two items of the
    same name, kind and place whose overload indices are different safe
    integers, 1 or more, have different file names and are linked by
    different names, whatever the name cleaning does. *)
Theorem overloads_get_different_filenames
  (member : ApiItem) (kindName : string) (i j : Z)
  (hierarchy : list HierarchyItem) :
  isSafeInteger i = true -> isSafeInteger j = true ->
  (1 <= i)%Z -> (1 <= j)%Z -> i <> j ->
  let overload (index : Z) : DocumentedItem :=
    let h := mkHierarchyItem member (ApiItemKind.Other kindName)
               (Some index) in
    mkDocumentedItem h (hierarchy ++ [h])%list in
  _getFilenameForApiItem getSafeFilenameForName getUnscopedName (overload i)
  <> _getFilenameForApiItem getSafeFilenameForName getUnscopedName
       (overload j)
  /\ _getLinkFilenameForApiItem getSafeFilenameForName getUnscopedName
       (overload i)
     <> _getLinkFilenameForApiItem getSafeFilenameForName getUnscopedName
          (overload j).
Proof.
  intros _ _ Hi Hj Hij overload.
  assert (Hlink : _getLinkFilenameForApiItem getSafeFilenameForName
                    getUnscopedName (overload i)
                  <> _getLinkFilenameForApiItem getSafeFilenameForName
                       getUnscopedName (overload j)).
  { intro H. apply Hij.
    exact (overload_index_of_link member kindName i j hierarchy Hi Hj H). }
  split; [|exact Hlink].
  intro H. apply Hlink. unfold _getLinkFilenameForApiItem. now rewrite H.
Qed.

End FileNameFacts.

(* ================================================================= *)
(** ** What a rendering keeps, and when it fails *)

Section Kept.

Variable getEscapedText : string -> string.
Variable _apiModel : ApiModel.

Import IndentedWriter Predicates StringFacts WriterFacts WhitespaceFacts.

(** X5: a rendering that returns leaves the bold and italic flags, the
    options and the indentation of the writer as it found them, for every
    kind of node. *)
Theorem rendering_restores_flags_options_and_indentation
  (docNode : DocNode) (context context' : IMarkdownEmitterContext)
  (sib : bool) :
  writeNode getEscapedText _apiModel docNode context sib = Normal context' ->
  boldRequested context' = boldRequested context
  /\ italicRequested context' = italicRequested context
  /\ options context' = options context
  /\ indentLevel (writer context') = indentLevel (writer context)
  /\ defaultIndentPrefix (writer context')
     = defaultIndentPrefix (writer context).
Proof.
  intro H. apply writeNode_frame in H. unfold frame in H.
  injection H as Hb Hi Ho Hl Hp. repeat split; assumption.
Qed.

(** X6: a rendering that returns has only added lines to the console, none
    removed or changed, and has not turned the inside-table flag on. *)
Theorem rendering_only_adds_to_the_console
  (docNode : DocNode) (context context' : IMarkdownEmitterContext)
  (sib : bool) :
  writeNode getEscapedText _apiModel docNode context sib = Normal context' ->
  (exists logged, console context' = (console context ++ logged)%list)
  /\ (insideTable context' = true -> insideTable context = true).
Proof.
  intro H. split.
  - revert H.
    apply (writeNode_respects getEscapedText _apiModel
             (fun c c' => exists logged,
                  console c' = (console c ++ logged)%list)).
    + intro c. exists []. now rewrite List.app_nil_r.
    + intros a b c (l1 & H1) (l2 & H2). exists (l1 ++ l2)%list.
      now rewrite H2, H1, List.app_assoc.
    + intros s c. exists []. cbn. now rewrite List.app_nil_r.
    + intros s c. exists []. cbn. now rewrite List.app_nil_r.
    + intros c. exists []. cbn. now rewrite List.app_nil_r.
    + intros c. exists []. cbn. now rewrite List.app_nil_r.
    + intros c c1 (l & Hl). now exists l.
    + intros line c. now exists [line].
    + intros b i c c1 (l & Hl). now exists l.
    + intros c c1 (l & Hl). now exists l.
  - intro Hon. destruct (insideTable context) eqn:E; [reflexivity|].
    rewrite (writeNode_insideTable_off _ _ _ _ _ _ H E) in Hon.
    discriminate.
Qed.

(** X7: a link with a code destination never fails the rendering, whatever
    the resolver and the filename lookup answer.  It leaves the flags as
    they were and either leaves the console as it was or logs exactly one
    line and writes nothing. *)
Theorem code_link_never_fails (tag : DocLinkTag)
  (reference : DocDeclarationReference)
  (context : IMarkdownEmitterContext) :
  codeDestination tag = Some reference ->
  exists context',
    writeLinkTagWithCodeDestination getEscapedText _apiModel tag context
    = Normal context'
    /\ insideTable context' = insideTable context
    /\ boldRequested context' = boldRequested context
    /\ italicRequested context' = italicRequested context
    /\ (console context' = console context
        \/ (writer context' = writer context
            /\ exists line,
                console context' = (console context ++ [line])%list)).
Proof.
  intro Href. unfold writeLinkTagWithCodeDestination. rewrite Href.
  destruct (resolvedApiItem _) as [item|].
  - destruct (Js.truthy (onGetFilenameForApiItem _ _)).
    + destruct (negb _); eexists; (split; [reflexivity|]);
        repeat split; try reflexivity.
      * now left.
      * right. split; [reflexivity|]. eexists. reflexivity.
    + eexists. split; [reflexivity|]. repeat split. now left.
  - destruct (Js.truthy (errorMessage _)).
    + eexists. split; [reflexivity|]. repeat split.
      right. split; [reflexivity|]. eexists. reflexivity.
    + eexists. split; [reflexivity|]. repeat split. now left.
Qed.

(** X8: a link with a URL destination fails exactly when the tag has
    neither a link text nor a URL; with a link text and no URL it is
    written all the same, its address being the word undefined.  When it
    returns only the writer has changed. *)
Theorem url_link_fails_without_text_and_url (tag : DocLinkTag)
  (context : IMarkdownEmitterContext) :
  ((exists message,
       writeLinkTagWithUrlDestination getEscapedText tag context
       = Throw message)
   <-> (linkText tag = None /\ urlDestination tag = None))
  /\ (forall text,
         linkText tag = Some text -> urlDestination tag = None ->
         writeLinkTagWithUrlDestination getEscapedText tag context
         = Normal
             (updWriter
                (write ("<a href=" ++ Js.DQ ++ "undefined" ++ Js.DQ ++ ">"
                        ++ getEscapedText (Js.replaceWhitespaceRuns text)
                        ++ "</a>"))
                context))
  /\ (forall context',
         writeLinkTagWithUrlDestination getEscapedText tag context
         = Normal context' ->
         console context' = console context
         /\ insideTable context' = insideTable context
         /\ frame context' = frame context).
Proof.
  assert (Hkept : forall s c',
             Normal (updWriter (write s) context) = Normal c' ->
             console c' = console context
             /\ insideTable c' = insideTable context
             /\ frame c' = frame context).
  { intros s c' H. injection H as <-. repeat split.
    apply frame_updWriter; apply write_indent. }
  unfold writeLinkTagWithUrlDestination.
  destruct (linkText tag) as [text|], (urlDestination tag) as [url|];
    cbn [Js.interpolate].
  - split; [split|split].
    + intros (message & H). discriminate.
    + intros (H & _). discriminate.
    + intros t _ H. discriminate.
    + apply Hkept.
  - split; [split|split].
    + intros (message & H). discriminate.
    + intros (H & _). discriminate.
    + intros t [= <-] _. reflexivity.
    + apply Hkept.
  - split; [split|split].
    + intros (message & H). discriminate.
    + intros (_ & H). discriminate.
    + intros t H. discriminate.
    + apply Hkept.
  - split; [split|split].
    + intros _. split; reflexivity.
    + intros _. eexists. reflexivity.
    + intros t H. discriminate.
    + intros c' H. discriminate.
Qed.

Lemma softBreak_written (c : IMarkdownEmitterContext) (sib : bool)
  (ch : ascii) :
  peekLastCharacter (writer c) = String ch EmptyString ->
  Js.isWhiteSpace ch = false ->
  writeNode getEscapedText _apiModel DocSoftBreak c sib
  = Normal (updWriter (append "<br />") c).
Proof.
  intros E Ews. cbn [writeNode]. rewrite E. cbn [Js.testOptionalWhitespace].
  rewrite Ews. cbn [negb]. unfold updWriter.
  rewrite write_midline; [reflexivity|reflexivity|].
  unfold atStartOfLine. rewrite E.
  destruct (Js.isNewline ch) eqn:Enl; [|reflexivity].
  apply isNewline_isWhiteSpace in Enl. congruence.
Qed.

(** X9: soft breaks in a row are all written or all dropped: after a
    character that is not whitespace each of them writes its marker (the
    marker itself does not end in whitespace), and at the start of the
    output or after whitespace none of them writes anything. *)
Theorem soft_breaks_in_a_row (n : nat)
  (context : IMarkdownEmitterContext) :
  let needed : bool :=
    match peekLastCharacter (writer context) with
    | EmptyString => false
    | String ch _ => negb (Js.isWhiteSpace ch)
    end in
  writeNodes getEscapedText _apiModel (repeat DocSoftBreak n) context
  = Normal (if needed
            then updWriter (append (Js.repeatString "<br />" n)) context
            else context).
Proof.
  intro needed. unfold writeNodes.
  generalize (Nat.ltb 1 (List.length (repeat DocSoftBreak n))) as sib.
  intro sib. unfold needed. clear needed.
  destruct (lastCharacter_cases (buffer (writer context))) as [E|(ch & E)];
    unfold peekLastCharacter; rewrite E.
  - induction n as [|n IH]; [reflexivity|].
    cbn [repeat forEach writeNode]. unfold peekLastCharacter. rewrite E.
    cbn [Js.testOptionalWhitespace negb bind]. exact IH.
  - destruct (Js.isWhiteSpace ch) eqn:Ews; cbn [negb].
    + induction n as [|n IH]; [reflexivity|].
      cbn [repeat forEach writeNode]. unfold peekLastCharacter. rewrite E.
      cbn [Js.testOptionalWhitespace]. rewrite Ews.
      cbn [negb bind]. exact IH.
    + revert context ch E Ews. induction n as [|n IH]; intros c ch E Ews.
      * cbn [repeat forEach Js.repeatString]. unfold updWriter.
        rewrite append_empty. now destruct c.
      * cbn [repeat forEach].
        rewrite (softBreak_written c sib ch E Ews). cbn [bind].
        rewrite (IH (updWriter (append "<br />") c) ">"%char).
        -- unfold updWriter. cbn [writer setWriter].
           now rewrite append_append.
        -- unfold peekLastCharacter. cbn [updWriter setWriter writer
                                            append buffer].
           rewrite lastCharacter_append. reflexivity.
        -- reflexivity.
Qed.

End Kept.

(* ================================================================= *)
(** ** When a rendering fails *)

Section Failing.

Variable getEscapedText : string -> string.
Variable _apiModel : ApiModel.

Import IndentedWriter Predicates.

Lemma existsb_map_fun {A B : Type} (f : B -> bool) (g : A -> B)
  (l : list A) :
  existsb f (map g l) = existsb (fun a => f (g a)) l.
Proof. induction l as [|a l IH]; cbn; [reflexivity | now rewrite IH]. Qed.

Lemma existsb_repeat_false {A : Type} (f : A -> bool) (a : A) (n : nat) :
  f a = false -> existsb f (repeat a n) = false.
Proof. intro H. induction n as [|n IH]; cbn; [reflexivity | now rewrite H]. Qed.

(** A loop fails exactly when it meets an element on which its body
    fails. *)
Lemma forEach_stops {A : Type} (bad : A -> bool) (body : A -> Rendering)
  (l : list A) :
  Forall (fun a => forall c,
              if bad a then exists e, body a c = Throw e
              else exists c', body a c = Normal c') l ->
  forall c,
    if existsb bad l then exists e, forEach l body c = Throw e
    else exists c', forEach l body c = Normal c'.
Proof.
  induction 1 as [|a l Ha _ IH]; intro c; cbn [existsb forEach].
  - now exists c.
  - specialize (Ha c). destruct (bad a); cbn [orb].
    + destruct Ha as (e & ->). now exists e.
    + destruct Ha as (c1 & ->). cbn [bind]. apply IH.
Qed.

Lemma code_link_returns (tag : DocLinkTag)
  (reference : DocDeclarationReference) (c : IMarkdownEmitterContext) :
  codeDestination tag = Some reference ->
  exists c',
    writeLinkTagWithCodeDestination getEscapedText _apiModel tag c
    = Normal c'.
Proof.
  intro Href. unfold writeLinkTagWithCodeDestination. rewrite Href.
  destruct (resolvedApiItem _) as [item|].
  - destruct (Js.truthy (onGetFilenameForApiItem _ _)); [|eauto].
    destruct (negb _); eauto.
  - destruct (Js.truthy (errorMessage _)); eauto.
Qed.

Lemma writeNode_stops (docNode : DocNode) :
  forall c sib,
    if anyNode isUnsupported docNode
    then exists e,
        writeNode getEscapedText _apiModel docNode c sib = Throw e
    else exists c',
        writeNode getEscapedText _apiModel docNode c sib = Normal c'.
Proof.
  induction docNode as
    [ text | nodes IH | nodes IH | bold italic nodes IH | code | code |
    | tag | title level | content IH | header rows IHh IHr | kind ]
    using DocNode_tree_ind; intros c sib.
  - cbn. eauto.
  - (* Paragraph *)
    cbn [anyNode isUnsupported orb writeNode superWriteNode].
    rewrite writeRenderers_map. unfold writeNodes.
    pose proof (forEach_stops (anyNode isUnsupported)
                  (fun n c => writeNode getEscapedText _apiModel n c
                                (Nat.ltb 1 (List.length nodes)))
                  nodes) as Hl.
    cbv beta in Hl.
    specialize (Hl (Forall_impl _ (fun n Hn c => Hn c _) IH)
                  (updWriter ensureSkippedLine c)).
    destruct (existsb (anyNode isUnsupported) nodes).
    + destruct Hl as (e & ->). now exists e.
    + destruct Hl as (c1 & ->). cbn [bind]. eauto.
  - (* Section *)
    cbn [anyNode isUnsupported orb writeNode superWriteNode].
    rewrite writeRenderers_map. unfold writeNodes.
    pose proof (forEach_stops (anyNode isUnsupported)
                  (fun n c => writeNode getEscapedText _apiModel n c
                                (Nat.ltb 1 (List.length nodes)))
                  nodes) as Hl.
    cbv beta in Hl.
    specialize (Hl (Forall_impl _ (fun n Hn c => Hn c _) IH)
                  (updWriter ensureSkippedLine c)).
    destruct (existsb (anyNode isUnsupported) nodes).
    + destruct Hl as (e & ->). now exists e.
    + destruct Hl as (c1 & ->). cbn [bind]. eauto.
  - (* EmphasisSpan *)
    cbn [anyNode isUnsupported orb]. rewrite writeNode_emphasisSpan.
    unfold writeNodes.
    pose proof (forEach_stops (anyNode isUnsupported)
                  (fun n c => writeNode getEscapedText _apiModel n c
                                (Nat.ltb 1 (List.length nodes)))
                  nodes) as Hl.
    cbv beta in Hl.
    specialize (Hl (Forall_impl _ (fun n Hn c => Hn c _) IH)
                  (setItalicRequested italic (setBoldRequested bold c))).
    destruct (existsb (anyNode isUnsupported) nodes).
    + destruct Hl as (e & ->). now exists e.
    + destruct Hl as (c1 & ->). cbn [bind]. eauto.
  - cbn. eauto.
  - cbn. eauto.
  - cbn [anyNode isUnsupported orb writeNode]. destruct (negb _); eauto.
  - (* LinkTag *)
    cbn [anyNode isUnsupported orb writeNode superWriteNode].
    destruct (codeDestination tag) as [reference|] eqn:Ec.
    + exact (code_link_returns tag reference c Ec).
    + destruct (urlDestination tag) as [url|] eqn:Eu; [|eauto].
      unfold writeLinkTagWithUrlDestination. rewrite Eu.
      destruct (linkText tag); eauto.
  - cbn. eauto.
  - (* NoteBox *)
    cbn [anyNode isUnsupported orb writeNode].
    match goal with
    | |- context [writeNode _ _ content ?c0 false] =>
        specialize (IH c0 false)
    end.
    destruct (anyNode isUnsupported content).
    + destruct IH as (e & ->). now exists e.
    + destruct IH as (c1 & ->). cbn [bind]. eauto.
  - (* Table *)
    rewrite writeTable_specTable. unfold specTable.
    cbn [anyNode isUnsupported orb].
    set (inCell := fun cell : DocTableCell =>
                     match cell with
                     | mkDocTableCell n => anyNode isUnsupported n
                     end).
    set (inRow := fun row : DocTableRow =>
                    match row with
                    | mkDocTableRow cs => existsb inCell cs
                    end).
    assert (HdataCell : forall cell,
               (forall c sib,
                   if anyNode isUnsupported (content cell)
                   then exists e,
                       writeNode getEscapedText _apiModel (content cell)
                         c sib = Throw e
                   else exists c',
                       writeNode getEscapedText _apiModel (content cell)
                         c sib = Normal c') ->
               forall c,
                 if inCell cell
                 then exists e,
                     writeDataCell getEscapedText _apiModel cell c = Throw e
                 else exists c',
                     writeDataCell getEscapedText _apiModel cell c
                     = Normal c').
    { intros [n] Hn d. unfold writeDataCell, inCell. cbn [content] in *.
      specialize (Hn (updWriter (write "<td>") d) false).
      destruct (anyNode isUnsupported n).
      - destruct Hn as (e & ->). now exists e.
      - destruct Hn as (d1 & ->). cbn [bind]. eauto. }
    assert (HheaderCell : forall cell,
               (forall c sib,
                   if anyNode isUnsupported (content cell)
                   then exists e,
                       writeNode getEscapedText _apiModel (content cell)
                         c sib = Throw e
                   else exists c',
                       writeNode getEscapedText _apiModel (content cell)
                         c sib = Normal c') ->
               forall c,
                 if inCell cell
                 then exists e,
                     writeHeaderCell getEscapedText _apiModel (Some cell) c
                     = Throw e
                 else exists c',
                     writeHeaderCell getEscapedText _apiModel (Some cell) c
                     = Normal c').
    { intros [n] Hn d. unfold writeHeaderCell, inCell. cbn [content] in *.
      specialize (Hn (updWriter (write "<th>") d) false).
      destruct (anyNode isUnsupported n).
      - destruct Hn as (e & ->). now exists e.
      - destruct Hn as (d1 & ->). cbn [bind]. eauto. }
    set (inHeader := fun o : option DocTableCell =>
                       match o with
                       | Some cell => inCell cell
                       | None => false
                       end).
    match goal with
    | |- if ?cond then _ else _ =>
        assert (Hcond : cond = existsb inHeader (specHeaderRow header rows)
                               || existsb inRow rows)
    end.
    { f_equal. unfold specHeaderRow. rewrite existsb_app, existsb_map_fun.
      rewrite existsb_repeat_false by reflexivity. rewrite orb_false_r.
      destruct header as [[cs]|]; reflexivity. }
    rewrite Hcond. clear Hcond.
    match goal with
    | |- context [forEach (specHeaderRow header rows) _ ?c] =>
        set (c0 := c)
    end.
    assert (Hh : if existsb inHeader (specHeaderRow header rows)
                 then exists e,
                     forEach (specHeaderRow header rows)
                       (writeHeaderCell getEscapedText _apiModel) c0
                     = Throw e
                 else exists c',
                     forEach (specHeaderRow header rows)
                       (writeHeaderCell getEscapedText _apiModel) c0
                     = Normal c').
    { apply forEach_stops. unfold specHeaderRow. apply Forall_app. split.
      - apply Forall_map. destruct header as [[cs]|]; [|constructor].
        unfold PHeader, PRow in IHh. cbn [cells] in *.
        eapply Forall_impl; [|exact IHh].
        intros cell Hcell. apply (HheaderCell cell Hcell).
      - apply Forall_forall. intros o Ho d.
        apply repeat_spec in Ho. subst o. cbn. eauto. }
    destruct (existsb inHeader (specHeaderRow header rows)); cbn [orb].
    { destruct Hh as (e & ->). now exists e. }
    destruct Hh as (c1 & ->). cbn [bind].
    match goal with
    | |- context [forEach rows _ ?c] => set (c1' := c)
    end.
    assert (Hr : if existsb inRow rows
                 then exists e,
                     forEach rows (writeDataRow getEscapedText _apiModel) c1'
                     = Throw e
                 else exists c',
                     forEach rows (writeDataRow getEscapedText _apiModel) c1'
                     = Normal c').
    { apply forEach_stops. eapply Forall_impl; [|exact IHr].
      intros [cs] Hrow d. unfold writeDataRow, inRow. cbn [cells].
      unfold PRow in Hrow. cbn [cells] in Hrow.
      pose proof (forEach_stops inCell
                    (writeDataCell getEscapedText _apiModel) cs) as Hc.
      cbv beta in Hc.
      specialize (Hc (Forall_impl _ HdataCell Hrow)
                    (updWriter (write "<tr>") d)).
      destruct (existsb inCell cs).
      - destruct Hc as (e & ->). now exists e.
      - destruct Hc as (d1 & ->). cbn [bind]. eauto. }
    destruct (existsb inRow rows).
    { destruct Hr as (e & ->). now exists e. }
    destruct Hr as (c2 & ->). cbn [bind]. eauto.
  - cbn. eauto.
Qed.

(** X10: a rendering fails exactly when the document holds a node of a
    kind that no emitter handles, at any depth.  Headings, tables, note
    boxes, emphasis spans, code, soft breaks and link tags never make a
    rendering fail. *)
Theorem rendering_fails_only_on_unsupported_nodes (docNode : DocNode)
  (context : IMarkdownEmitterContext) (sib : bool) :
  (exists context',
      writeNode getEscapedText _apiModel docNode context sib
      = Normal context')
  <-> anyNode isUnsupported docNode = false.
Proof.
  pose proof (writeNode_stops docNode context sib) as H.
  destruct (anyNode isUnsupported docNode).
  - destruct H as (e & H). split; [|discriminate].
    intros (c' & H'). rewrite H in H'. discriminate.
  - split; [reflexivity | intros _; exact H].
Qed.

End Failing.

(* ================================================================= *)
(** ** Where warnings come from *)

Section Warnings.

Variable getEscapedText : string -> string.
Variable _apiModel : ApiModel.

Import IndentedWriter Predicates.

Lemma existsb_false_Forall {A : Type} (f : A -> bool) (l : list A) :
  existsb f l = false -> Forall (fun a => f a = false) l.
Proof.
  induction l as [|a l IH]; cbn; intro H; constructor;
    apply orb_false_elim in H as [Ha Hl]; auto.
Qed.

Lemma Forall_both {A : Type} (P Q : A -> Prop) (l : list A) :
  Forall P l -> Forall Q l -> Forall (fun a => P a /\ Q a) l.
Proof.
  induction 1 as [|a l Ha _ IH]; intro HQ; inversion HQ; subst;
    constructor; auto.
Qed.

Lemma writeNode_quiet (docNode : DocNode) :
  anyNode isCodeLink docNode = false ->
  respects (fun c c' => console c' = console c)
    (writeNode getEscapedText _apiModel docNode).
Proof.
  set (R := fun c c' : IMarkdownEmitterContext => console c' = console c).
  assert (Rrefl : forall c, R c c) by reflexivity.
  assert (Rtrans : forall a b c, R a b -> R b c -> R a c).
  { unfold R. intros a b c Hab Hbc. congruence. }
  assert (Rupd : forall f c, R c (updWriter f c)) by reflexivity.
  assert (Hnodes : forall nodes,
             Forall (fun n => anyNode isCodeLink n = false ->
                              respects R
                                (writeNode getEscapedText _apiModel n))
               nodes ->
             existsb (anyNode isCodeLink) nodes = false ->
             Forall (respects R)
               (map (writeNode getEscapedText _apiModel) nodes)).
  { intros nodes IH Hn. apply Forall_map.
    apply existsb_false_Forall in Hn.
    eapply Forall_impl; [|exact (Forall_both _ _ _ IH Hn)].
    intros n (Hi & Hq). exact (Hi Hq). }
  induction docNode as
    [ text | nodes IH | nodes IH | bold italic nodes IH | code | code |
    | tag | title level | content IH | header rows IHh IHr | kind ]
    using DocNode_tree_ind; intros Hq sib c c' H;
    cbn [anyNode isCodeLink orb] in Hq;
    cbn [writeNode superWriteNode] in H.
  - now injection H as <-.
  - apply bind_Normal_inv in H as (c1 & E & H). injection H as <-.
    exact (writeRenderers_respecting R Rrefl Rtrans _ (Hnodes _ IH Hq)
             _ _ E).
  - apply bind_Normal_inv in H as (c1 & E & H). injection H as <-.
    exact (writeRenderers_respecting R Rrefl Rtrans _ (Hnodes _ IH Hq)
             _ _ E).
  - apply bind_Normal_inv in H as (c1 & E & H). injection H as <-.
    exact (writeRenderers_respecting R Rrefl Rtrans _ (Hnodes _ IH Hq)
             _ _ E).
  - now injection H as <-.
  - now injection H as <-.
  - destruct (negb _); now injection H as <-.
  - destruct (codeDestination tag); [discriminate|].
    destruct (urlDestination tag); [|now injection H as <-].
    exact (writeLinkTagWithUrlDestination_respecting getEscapedText R
             Rrefl Rtrans (fun s c => Rupd _ c) tag _ _ H).
  - now injection H as <-.
  - apply bind_Normal_inv in H as (c1 & E & H). injection H as <-.
    exact (IH Hq false _ _ E).
  - revert H.
    apply (writeTable_respecting R Rrefl Rtrans (fun s c => Rupd _ c)
             (fun s c => Rupd _ c) (fun c => Rupd _ c)
             (fun c c1 Hc => Hc)).
    + apply orb_false_elim in Hq as [Hh _].
      destruct header as [[cs]|]; cbn [option_map]; [|exact I].
      apply Forall_map. unfold PHeader, PRow in IHh. cbn [cells] in IHh.
      apply existsb_false_Forall in Hh.
      eapply Forall_impl; [|exact (Forall_both _ _ _ IHh Hh)].
      intros [n] (Hi & Hn). exact (Hi Hn).
    + apply orb_false_elim in Hq as [_ Hr].
      apply Forall_map. apply existsb_false_Forall in Hr.
      eapply Forall_impl; [|exact (Forall_both _ _ _ IHr Hr)].
      intros [cs] (Hrow & Hcs). apply Forall_map.
      unfold PRow in Hrow. cbn [cells] in Hrow.
      apply existsb_false_Forall in Hcs.
      eapply Forall_impl; [|exact (Forall_both _ _ _ Hrow Hcs)].
      intros [n] (Hi & Hn). exact (Hi Hn).
  - discriminate.
Qed.

(** X11: warnings come from links with a code destination only: a document
    that holds no such link is rendered without a line being logged. *)
Theorem only_code_links_log (docNode : DocNode)
  (context context' : IMarkdownEmitterContext) (sib : bool) :
  anyNode isCodeLink docNode = false ->
  writeNode getEscapedText _apiModel docNode context sib = Normal context' ->
  console context' = console context.
Proof. intros Hq H. exact (writeNode_quiet docNode Hq sib _ _ H). Qed.

End Warnings.

(* ================================================================= *)
(** ** What the emphasis flags reach *)

Section Emphasis.

Variable getEscapedText : string -> string.
Variable _apiModel : ApiModel.
Variable bold italic : bool.

Import IndentedWriter Predicates.

Lemma withFlags_updWriter (f : IndentedWriter.t -> IndentedWriter.t)
  (c : IMarkdownEmitterContext) :
  updWriter f (withFlags bold italic c)
  = withFlags bold italic (updWriter f c).
Proof. reflexivity. Qed.

Lemma withFlags_setInsideTable (b : bool) (c : IMarkdownEmitterContext) :
  setInsideTable b (withFlags bold italic c)
  = withFlags bold italic (setInsideTable b c).
Proof. reflexivity. Qed.

Lemma bind_withFlags (r k : Rendering) (c : IMarkdownEmitterContext) :
  r (withFlags bold italic c)
  = mapCompletion (withFlags bold italic) (r c) ->
  (forall x, k (withFlags bold italic x)
             = mapCompletion (withFlags bold italic) (k x)) ->
  (x <- r (withFlags bold italic c) ;; k x)
  = mapCompletion (withFlags bold italic) (x <- r c ;; k x).
Proof.
  intros Hr Hk. rewrite Hr. destruct (r c) as [c1|e]; cbn; [apply Hk|].
  reflexivity.
Qed.

Lemma forEach_withFlags {A : Type} (l : list A) (body : A -> Rendering) :
  Forall (fun a => forall c,
              body a (withFlags bold italic c)
              = mapCompletion (withFlags bold italic) (body a c)) l ->
  forall c,
    forEach l body (withFlags bold italic c)
    = mapCompletion (withFlags bold italic) (forEach l body c).
Proof.
  induction 1 as [|a l Ha _ IH]; intro c; cbn [forEach]; [reflexivity|].
  apply bind_withFlags; [apply Ha | apply IH].
Qed.

Lemma writeLinkTagWithCodeDestination_withFlags (tag : DocLinkTag)
  (c : IMarkdownEmitterContext) :
  writeLinkTagWithCodeDestination getEscapedText _apiModel tag
    (withFlags bold italic c)
  = mapCompletion (withFlags bold italic)
      (writeLinkTagWithCodeDestination getEscapedText _apiModel tag c).
Proof.
  unfold writeLinkTagWithCodeDestination.
  change (options (withFlags bold italic c)) with (options c).
  destruct (resolvedApiItem _) as [item|].
  - destruct (Js.truthy (onGetFilenameForApiItem _ _)); [|reflexivity].
    destruct (negb _); cbn [mapCompletion]; [|reflexivity].
    now rewrite !withFlags_updWriter.
  - destruct (Js.truthy (errorMessage _)); [|reflexivity].
    destruct (codeDestination tag); reflexivity.
Qed.

Lemma writeLinkTagWithUrlDestination_withFlags (tag : DocLinkTag)
  (c : IMarkdownEmitterContext) :
  writeLinkTagWithUrlDestination getEscapedText tag
    (withFlags bold italic c)
  = mapCompletion (withFlags bold italic)
      (writeLinkTagWithUrlDestination getEscapedText tag c).
Proof.
  unfold writeLinkTagWithUrlDestination.
  destruct (linkText tag); cbn [mapCompletion];
    [now rewrite withFlags_updWriter|].
  destruct (urlDestination tag); cbn [mapCompletion];
    [now rewrite withFlags_updWriter | reflexivity].
Qed.

Lemma writeNode_withFlags (docNode : DocNode) :
  plainTextOutsideSpans docNode = false ->
  forall c sib,
    writeNode getEscapedText _apiModel docNode (withFlags bold italic c) sib
    = mapCompletion (withFlags bold italic)
        (writeNode getEscapedText _apiModel docNode c sib).
Proof.
  assert (Hnodes : forall nodes flag,
             Forall (fun n =>
                       plainTextOutsideSpans n = false ->
                       forall c sib,
                         writeNode getEscapedText _apiModel n
                           (withFlags bold italic c) sib
                         = mapCompletion (withFlags bold italic)
                             (writeNode getEscapedText _apiModel n c sib))
               nodes ->
             existsb plainTextOutsideSpans nodes = false ->
             forall c,
               forEach nodes
                 (fun n c => writeNode getEscapedText _apiModel n c flag)
                 (withFlags bold italic c)
               = mapCompletion (withFlags bold italic)
                   (forEach nodes
                      (fun n c =>
                         writeNode getEscapedText _apiModel n c flag) c)).
  { intros nodes flag IH Hn. apply forEach_withFlags.
    apply existsb_false_Forall in Hn.
    eapply Forall_impl; [|exact (Forall_both _ _ _ IH Hn)].
    intros n (Hi & Hq) c. exact (Hi Hq c flag). }
  induction docNode as
    [ text | nodes IH | nodes IH | b i nodes IH | code | code |
    | tag | title level | content IH | header rows IHh IHr | kind ]
    using DocNode_tree_ind; intros Hq c sib;
    cbn [plainTextOutsideSpans] in Hq.
  - discriminate.
  - cbn [writeNode superWriteNode]. rewrite !writeRenderers_map.
    rewrite withFlags_updWriter.
    apply (bind_withFlags
             (writeNodes getEscapedText _apiModel nodes)
             (fun c1 => Normal (updWriter ensureSkippedLine c1)));
      [|intro x; cbn [mapCompletion]; now rewrite withFlags_updWriter].
    apply (Hnodes nodes _ IH Hq).
  - cbn [writeNode superWriteNode]. rewrite !writeRenderers_map.
    rewrite withFlags_updWriter.
    apply (bind_withFlags
             (writeNodes getEscapedText _apiModel nodes)
             (fun c1 => Normal (updWriter ensureSkippedLine c1)));
      [|intro x; cbn [mapCompletion]; now rewrite withFlags_updWriter].
    apply (Hnodes nodes _ IH Hq).
  - rewrite !writeNode_emphasisSpan.
    change (setItalicRequested i (setBoldRequested b (withFlags bold italic c)))
      with (setItalicRequested i (setBoldRequested b c)).
    destruct (writeNodes getEscapedText _apiModel nodes _); reflexivity.
  - cbn [writeNode mapCompletion]. now rewrite !withFlags_updWriter.
  - cbn [writeNode mapCompletion]. now rewrite !withFlags_updWriter.
  - cbn [writeNode].
    change (writer (withFlags bold italic c)) with (writer c).
    destruct (negb _); cbn [mapCompletion];
      now rewrite ?withFlags_updWriter.
  - cbn [writeNode superWriteNode].
    destruct (codeDestination tag); [|destruct (urlDestination tag)].
    + apply writeLinkTagWithCodeDestination_withFlags.
    + apply writeLinkTagWithUrlDestination_withFlags.
    + reflexivity.
  - cbn [writeNode mapCompletion]. now rewrite !withFlags_updWriter.
  - cbn [writeNode]. rewrite !withFlags_updWriter.
    rewrite (IH Hq).
    destruct (writeNode getEscapedText _apiModel content _ false);
      cbn [bind mapCompletion]; [|reflexivity].
    now rewrite !withFlags_updWriter.
  - rewrite !writeTable_specTable. unfold specTable.
    rewrite !withFlags_updWriter, withFlags_setInsideTable,
      !withFlags_updWriter.
    apply orb_false_elim in Hq as [Hh Hr].
    assert (Hcell : forall (tag : string) (cell : DocTableCell),
               (plainTextOutsideSpans (content cell) = false ->
                forall c sib,
                  writeNode getEscapedText _apiModel (content cell)
                    (withFlags bold italic c) sib
                  = mapCompletion (withFlags bold italic)
                      (writeNode getEscapedText _apiModel (content cell)
                         c sib)) ->
               plainTextOutsideSpans (content cell) = false ->
               forall (closing : string) (c : IMarkdownEmitterContext),
                 (x <- writeNode getEscapedText _apiModel (content cell)
                         (updWriter (write tag) (withFlags bold italic c))
                         false ;;
                  Normal (updWriter (write closing) x))
                 = mapCompletion (withFlags bold italic)
                     (x <- writeNode getEscapedText _apiModel (content cell)
                             (updWriter (write tag) c) false ;;
                      Normal (updWriter (write closing) x))).
    { intros tag cell Hi Hn closing d. rewrite withFlags_updWriter.
      rewrite (Hi Hn).
      destruct (writeNode getEscapedText _apiModel (content cell) _ false);
        cbn [bind mapCompletion]; [|reflexivity].
      now rewrite withFlags_updWriter. }
    apply (bind_withFlags
             (forEach (specHeaderRow header rows)
                (writeHeaderCell getEscapedText _apiModel))
             (fun c1 =>
                c2 <- forEach rows (writeDataRow getEscapedText _apiModel)
                        (updWriter (writeLine "</thead>")
                           (updWriter (writeLine "</tr>")
                              (updWriter (writeLine EmptyString) c1))) ;;
                Normal (setInsideTable false
                          (updWriter (writeLine "</table>") c2)))).
    + apply forEach_withFlags. unfold specHeaderRow.
      apply Forall_app. split.
      * apply Forall_map. destruct header as [[cs]|]; [|constructor].
        unfold PHeader, PRow in IHh. cbn [cells] in IHh.
        apply existsb_false_Forall in Hh.
        eapply Forall_impl; [|exact (Forall_both _ _ _ IHh Hh)].
        intros [n] (Hi & Hn) d. unfold writeHeaderCell.
        exact (Hcell "<th>" (mkDocTableCell n) Hi Hn "</th>" d).
      * apply Forall_forall. intros o Ho d. apply repeat_spec in Ho.
        subst o. unfold writeHeaderCell. cbn [bind mapCompletion].
        now rewrite !withFlags_updWriter.
    + intro x. rewrite !withFlags_updWriter.
      apply (bind_withFlags
               (forEach rows (writeDataRow getEscapedText _apiModel))
               (fun c2 =>
                  Normal (setInsideTable false
                            (updWriter (writeLine "</table>") c2)))).
      * apply forEach_withFlags. apply existsb_false_Forall in Hr.
        eapply Forall_impl; [|exact (Forall_both _ _ _ IHr Hr)].
        intros [cs] (Hrow & Hcs) d. unfold writeDataRow. cbn [cells].
        rewrite withFlags_updWriter.
        apply (bind_withFlags
                 (forEach cs (writeDataCell getEscapedText _apiModel))
                 (fun c1 =>
                    Normal (updWriter (writeLine "</tr>")
                              (updWriter (writeLine EmptyString) c1)))).
        -- apply forEach_withFlags. unfold PRow in Hrow.
           cbn [cells] in Hrow. apply existsb_false_Forall in Hcs.
           eapply Forall_impl; [|exact (Forall_both _ _ _ Hrow Hcs)].
           intros [n] (Hi & Hn) e. unfold writeDataCell.
           exact (Hcell "<td>" (mkDocTableCell n) Hi Hn "</td>" e).
        -- intro y. cbn [mapCompletion].
           now rewrite !withFlags_updWriter.
      * intro y. cbn [mapCompletion].
        now rewrite withFlags_updWriter, withFlags_setInsideTable.
  - reflexivity.
Qed.

(** X12: the emphasis flags of the context reach nothing but plain text
    that is not inside an emphasis span of the document: a document with
    no such text is rendered the same whatever the flags are, and the
    flags are handed back as they were given. *)
Theorem flags_reach_only_plain_text_outside_spans (docNode : DocNode)
  (context : IMarkdownEmitterContext) (sib : bool) :
  plainTextOutsideSpans docNode = false ->
  writeNode getEscapedText _apiModel docNode
    (withFlags bold italic context) sib
  = mapCompletion (withFlags bold italic)
      (writeNode getEscapedText _apiModel docNode context sib).
Proof. intro H. exact (writeNode_withFlags docNode H context sib). Qed.

End Emphasis.

(* ================================================================= *)
(** ** The text of a note box *)

Section NoteBoxOutput.

Variable getEscapedText : string -> string.
Variable _apiModel : ApiModel.

Import IndentedWriter Predicates StringFacts WriterFacts WhitespaceFacts
  BufferFacts.

(** Text that ends in a character other than a newline stays at the front
    of the buffer whatever is written after it. *)
Lemma strip_after_solid (x : string) (ch : ascii) (s : string) :
  Js.isNewline ch = false ->
  stripTrailingNewlines ((x ++ String ch EmptyString) ++ s)
  = (x ++ String ch EmptyString) ++ stripTrailingNewlines s.
Proof.
  intro Hch. rewrite !append_cons_assoc.
  rewrite strip_append by (rewrite hasContent_cons, Hch; reflexivity).
  cbn [stripTrailingNewlines]. now rewrite Hch.
Qed.

Lemma node_keeps_solid_prefix (x : string) (ch : ascii) (docNode : DocNode)
  (c c' : IMarkdownEmitterContext) (sib : bool) :
  Js.isNewline ch = false ->
  writeNode getEscapedText _apiModel docNode c sib = Normal c' ->
  (exists s, buffer (writer c) = (x ++ String ch EmptyString) ++ s) ->
  exists s, buffer (writer c') = (x ++ String ch EmptyString) ++ s.
Proof.
  intros Hch H.
  refine (writeNode_buffer_invariant getEscapedText _apiModel
            (fun b => exists s, b = (x ++ String ch EmptyString) ++ s)
            _ _ docNode sib c c' H).
  - intros b s (t & ->). exists (t ++ s). apply append_assoc.
  - intros w (t & Ht). rewrite buffer_ensureSkippedLine, Ht.
    destruct (hasContent _); [|now exists t].
    rewrite strip_after_solid by exact Hch.
    exists (stripTrailingNewlines t ++ Js.NL ++ Js.NL).
    apply append_assoc.
Qed.

(** X13: a note box that completes has written, from the start of a line
    and one level deeper than the text around it, the opening of a
    preformatted block, then what its content writes when rendered after
    that opening, and the closing of the block on a line of its own
    followed by one blank line.  Whatever the content writes, the opening
    stays in place; the indentation is afterwards what it was. *)
Theorem note_box_is_an_indented_pre_block (content : DocNode)
  (context context' : IMarkdownEmitterContext) (sib : bool) :
  writeNode getEscapedText _apiModel (DocNoteBox content) context sib
  = Normal context' ->
  let start : string := buffer (ensureNewLine (writer context)) in
  let indent : string := indentText (increaseIndent (writer context)) in
  let opened : IMarkdownEmitterContext :=
    updWriter
      (fun w => writeLine "<pre>" (increaseIndent (ensureNewLine w)))
      context in
  exists (inner : IMarkdownEmitterContext) (written : string),
    buffer (writer opened) = start ++ indent ++ "<pre>" ++ Js.NL
    /\ writeNode getEscapedText _apiModel content opened false
       = Normal inner
    /\ buffer (writer inner) = start ++ indent ++ "<pre>" ++ written
    /\ buffer (writer context')
       = start ++ indent ++ "<pre>" ++ written
         ++ (if atStartOfLine (writer inner) then EmptyString else Js.NL)
         ++ indent ++ "</pre>" ++ Js.NL ++ Js.NL
    /\ context'
       = updWriter
           (fun w =>
              writeLine EmptyString
                (decreaseIndent (writeLine "</pre>" (ensureNewLine w))))
           inner
    /\ indentLevel (writer context') = indentLevel (writer context).
Proof.
  intros H start indent opened. cbn [writeNode] in H.
  apply bind_Normal_inv in H as (c1 & E & H). injection H as <-.
  change (writeNode getEscapedText _apiModel content opened false
          = Normal c1) in E.
  set (w0 := ensureNewLine (writer context)) in *.
  set (wi := increaseIndent w0) in *.
  assert (Hsi : atStartOfLine wi = true)
    by apply (atStartOfLine_ensureNewLine (writer context)).
  assert (Hii : indentText wi = indent).
  { unfold wi, w0, indent, indentText, ensureNewLine.
    now destruct (atStartOfLine (writer context)). }
  destruct (line_at_linestart "<pre>" wi eq_refl eq_refl Hsi)
    as (Hb1 & _ & Hi1).
  assert (Hc0 : writer opened = writeLine "<pre>" wi) by reflexivity.
  assert (Hopened : buffer (writer opened)
                    = start ++ indent ++ "<pre>" ++ Js.NL).
  { rewrite Hc0, Hb1, Hii. reflexivity. }
  destruct (node_keeps_solid_prefix
              (start ++ indent ++ "<pre") ">"
              content opened c1 false eq_refl E) as (s1 & Hs1).
  { exists Js.NL. rewrite Hopened. now rewrite !append_assoc. }
  pose proof (writeNode_frame _ _ _ _ _ _ E) as F.
  pose proof F as Flevel. unfold frame in Flevel.
  injection Flevel as _ _ _ Hlevel _.
  apply frame_indentText in F. rewrite Hc0, Hi1, Hii in F.
  set (w2 := ensureNewLine (writer c1)) in *.
  assert (Hs2 : atStartOfLine w2 = true)
    by apply atStartOfLine_ensureNewLine.
  assert (Hi2 : indentText w2 = indent).
  { unfold w2, ensureNewLine. now destruct (atStartOfLine (writer c1)). }
  assert (Hb2 : buffer w2
                = buffer (writer c1)
                  ++ (if atStartOfLine (writer c1) then EmptyString
                      else Js.NL)).
  { unfold w2, ensureNewLine. destruct (atStartOfLine (writer c1)).
    - now rewrite append_nil_r.
    - reflexivity. }
  destruct (line_at_linestart "</pre>" w2 eq_refl eq_refl Hs2)
    as (Hb3 & _ & _).
  exists c1, s1.
  split; [exact Hopened|]. split; [exact E|].
  split; [rewrite Hs1; now rewrite !append_assoc|].
  split; [|split].
  - cbn [updWriter setWriter writer]. fold w2.
    change (buffer (writeLine EmptyString
                      (decreaseIndent (writeLine "</pre>" w2))))
      with (buffer (writeLine "</pre>" w2) ++ Js.NL).
    rewrite Hb3, Hb2, Hs1, Hi2. now rewrite !append_assoc.
  - reflexivity.
  - cbn [updWriter setWriter writer]. fold w2.
    change (indentLevel (writeLine EmptyString
                           (decreaseIndent (writeLine "</pre>" w2))))
      with (pred (indentLevel (writeLine "</pre>" w2))).
    assert (Hl2 : indentLevel (writeLine "</pre>" w2)
                  = indentLevel (writer c1)).
    { unfold writeLine. cbn [append indentLevel].
      destruct (write_indent "</pre>" w2) as [-> _].
      unfold w2, ensureNewLine. now destruct (atStartOfLine (writer c1)). }
    rewrite Hl2, Hlevel.
    destruct (write_indent "<pre>"
                (increaseIndent (ensureNewLine (writer context))))
      as [-> _].
    unfold ensureNewLine. now destruct (atStartOfLine (writer context)).
Qed.

End NoteBoxOutput.

(* ================================================================= *)
(** ** Where the inside-table flag changes *)

Section InsideTable.

Variable getEscapedText : string -> string.
Variable _apiModel : ApiModel.

Import IndentedWriter Predicates.

Lemma writeNode_outside_tables (docNode : DocNode) :
  anyNode isTable docNode = false ->
  respects (fun c c' => insideTable c' = insideTable c)
    (writeNode getEscapedText _apiModel docNode).
Proof.
  set (R := fun c c' : IMarkdownEmitterContext =>
              insideTable c' = insideTable c).
  assert (Rrefl : forall c, R c c) by reflexivity.
  assert (Rtrans : forall a b c, R a b -> R b c -> R a c).
  { unfold R. intros a b c Hab Hbc. congruence. }
  assert (Rupd : forall f c, R c (updWriter f c)) by reflexivity.
  assert (Hnodes : forall nodes,
             Forall (fun n => anyNode isTable n = false ->
                              respects R
                                (writeNode getEscapedText _apiModel n))
               nodes ->
             existsb (anyNode isTable) nodes = false ->
             Forall (respects R)
               (map (writeNode getEscapedText _apiModel) nodes)).
  { intros nodes IH Hn. apply Forall_map.
    apply existsb_false_Forall in Hn.
    eapply Forall_impl; [|exact (Forall_both _ _ _ IH Hn)].
    intros n (Hi & Hq). exact (Hi Hq). }
  induction docNode as
    [ text | nodes IH | nodes IH | bold italic nodes IH | code | code |
    | tag | title level | content IH | header rows IHh IHr | kind ]
    using DocNode_tree_ind; intros Hq sib c c' H;
    cbn [anyNode isTable orb] in Hq;
    cbn [writeNode superWriteNode] in H.
  - now injection H as <-.
  - apply bind_Normal_inv in H as (c1 & E & H). injection H as <-.
    exact (writeRenderers_respecting R Rrefl Rtrans _ (Hnodes _ IH Hq)
             _ _ E).
  - apply bind_Normal_inv in H as (c1 & E & H). injection H as <-.
    exact (writeRenderers_respecting R Rrefl Rtrans _ (Hnodes _ IH Hq)
             _ _ E).
  - apply bind_Normal_inv in H as (c1 & E & H). injection H as <-.
    exact (writeRenderers_respecting R Rrefl Rtrans _ (Hnodes _ IH Hq)
             _ _ E).
  - now injection H as <-.
  - now injection H as <-.
  - destruct (negb _); now injection H as <-.
  - destruct (codeDestination tag); [|destruct (urlDestination tag)].
    + exact (writeLinkTagWithCodeDestination_respecting getEscapedText
               _apiModel R Rrefl Rtrans (fun s c => Rupd _ c)
               (fun line c => eq_refl) tag _ _ H).
    + exact (writeLinkTagWithUrlDestination_respecting getEscapedText R
               Rrefl Rtrans (fun s c => Rupd _ c) tag _ _ H).
    + now injection H as <-.
  - now injection H as <-.
  - apply bind_Normal_inv in H as (c1 & E & H). injection H as <-.
    exact (IH Hq false _ _ E).
  - discriminate.
  - discriminate.
Qed.

(** X14: only tables touch the inside-table flag: a document that holds no
    table is rendered with the flag left as it was, on or off. *)
Theorem only_tables_change_insideTable (docNode : DocNode)
  (context context' : IMarkdownEmitterContext) (sib : bool) :
  anyNode isTable docNode = false ->
  writeNode getEscapedText _apiModel docNode context sib = Normal context' ->
  insideTable context' = insideTable context.
Proof. intros Hq H. exact (writeNode_outside_tables docNode Hq sib _ _ H). Qed.

End InsideTable.

(* ================================================================= *)
(** ** The rules at work on the sample documents *)

Section Worked.

Import IndentedWriter Sample.

(** The spec's scenario: no link text given, the scoped name is used. *)
Lemma code_link_resolved_witness :
  writeLinkTagWithCodeDestination getEscapedText apiModel
    (linkTo "Foo.Bar.method" None) initial
  = Normal (updWriter (write "[Foo.Bar.method()](Foo.Bar.md)") initial).
Proof.
  exact (code_link_resolved getEscapedText apiModel
           (linkTo "Foo.Bar.method" None) method "Foo.Bar.md" initial
           eq_refl eq_refl eq_refl).
Defined.

(** A link text of two spaces is empty once trimmed, yet the link is
    written and nothing is logged. *)
Lemma code_link_whitespace_text_is_written :
  Js.trim "  " = EmptyString
  /\ (exists c,
         writeLinkTagWithCodeDestination getEscapedText apiModel
           (linkTo "Foo.Bar.method" (Some "  ")) initial = Normal c
         /\ buffer (writer c) = "[ ](Foo.Bar.md)"
         /\ console c = []).
Proof.
  split; [reflexivity|]. eexists. split; [reflexivity|].
  split; reflexivity.
Qed.

Lemma code_link_dropped_witness :
  writeLinkTagWithCodeDestination getEscapedText apiModel
    (linkTo "Foo.hidden" None) initial = Normal initial
  /\ writeLinkTagWithCodeDestination getEscapedText apiModel
       (linkTo "Foo.Missing" None) initial
     = Normal
         (consoleLog
            (colors.yellow
               ("WARNING: Unable to resolve reference " ++ Js.DQ
                ++ "Foo.Missing" ++ Js.DQ ++ ": not found"))
            initial).
Proof.
  split.
  - exact (proj1 (code_link_dropped getEscapedText apiModel
                    (linkTo "Foo.hidden" None)
                    (mkDocDeclarationReference "Foo.hidden") initial
                    eq_refl)
             hidden eq_refl eq_refl).
  - exact (proj2 (code_link_dropped getEscapedText apiModel
                    (linkTo "Foo.Missing" None)
                    (mkDocDeclarationReference "Foo.Missing") initial
                    eq_refl)
             "not found" eq_refl eq_refl eq_refl).
Defined.

(** An empty link text is kept: the anchor is empty and is not the URL. *)
Lemma url_link_empty_text_is_kept :
  exists c,
    writeLinkTagWithUrlDestination getEscapedText
      (mkDocLinkTag None (Some "http://x") (Some EmptyString)) initial
    = Normal c
    /\ buffer (writer c)
       = "<a href=" ++ Js.DQ ++ "http://x" ++ Js.DQ ++ "></a>"
    /\ buffer (writer c)
       <> "<a href=" ++ Js.DQ ++ "http://x" ++ Js.DQ ++ ">http://x</a>".
Proof.
  eexists. split; [reflexivity|]. split; [reflexivity|].
  vm_compute. discriminate.
Qed.

Lemma code_is_written_literally_witness :
  (exists c,
      writeNode getEscapedText apiModel (DocCodeSpan " a*b ") initial false
      = Normal c
      /\ buffer (writer c)
         = "<code class=" ++ Js.DQ ++ "doc-code-span language-javascript"
           ++ Js.DQ ++ "> a*b </code>")
  /\ (exists c,
         writeNode getEscapedText apiModel (DocFencedCode " a*b ")
           (after "x") false = Normal c
         /\ buffer (writer c)
            = "x" ++ Js.NL
              ++ "<pre class=" ++ Js.DQ ++ "doc-fenced-code" ++ Js.DQ ++ ">"
              ++ Js.NL
              ++ "<code class=" ++ Js.DQ ++ "language-javascript" ++ Js.DQ
              ++ ">" ++ Js.NL ++ "a*b</code>" ++ Js.NL ++ "</pre>" ++ Js.NL)
  /\ (exists c,
         writeNode getEscapedText apiModel
           (DocCodeSpan ("a*" ++ Js.NL ++ "b"))
           (updWriter increaseIndent (after "x")) false = Normal c
         /\ buffer (writer c)
            = "x<code class=" ++ Js.DQ
              ++ "doc-code-span language-javascript" ++ Js.DQ ++ ">a*"
              ++ Js.NL ++ "  b</code>").
Proof.
  split; [|split].
  - destruct (code_is_written_literally getEscapedText apiModel " a*b "
                initial false) as ((c & H1 & _ & _ & H0 & _) & _).
    exists c. split; [exact H1 | exact (H0 eq_refl)].
  - destruct (code_is_written_literally getEscapedText apiModel " a*b "
                (after "x") false) as (_ & (c & H1 & _ & _ & H0) & _).
    exists c. split; [exact H1 | exact (H0 eq_refl)].
  - destruct (code_is_written_literally getEscapedText apiModel
                ("a*" ++ Js.NL ++ "b")
                (updWriter increaseIndent (after "x")) false)
      as ((c & H1 & _ & H2 & _) & _).
    exists c. split; [exact H1 | exact H2].
Defined.

Lemma emphasis_flags_are_scoped_witness :
  let start := setItalicRequested true initial in
  let finish :=
    returned (writeNode getEscapedText apiModel emphasised start false) in
  (boldRequested finish = false /\ italicRequested finish = true)
  /\ buffer (writer finish) = "**a**_b_**c**"
  /\ exists entered left,
      forEach
        [DocPlainText "a"; DocEmphasisSpan false true [DocPlainText "b"]]
        (fun n c => writeNode getEscapedText apiModel n c true)
        (setItalicRequested false (setBoldRequested true start))
      = Normal entered
      /\ boldRequested entered = true
      /\ italicRequested entered = false
      /\ writeNode getEscapedText apiModel (DocPlainText "c") entered true
         = Normal left
      /\ boldRequested left = true
      /\ italicRequested left = false
      /\ finish = setItalicRequested true (setBoldRequested false left).
Proof.
  intros start finish.
  destruct (emphasis_flags_are_scoped getEscapedText apiModel true false
              [DocPlainText "a"; DocEmphasisSpan false true [DocPlainText "b"];
               DocPlainText "c"]
              start finish false eq_refl) as (Hflags & _ & Hchildren).
  split; [exact Hflags|].
  destruct (Hchildren
              [DocPlainText "a";
               DocEmphasisSpan false true [DocPlainText "b"]]
              (DocPlainText "c") [] eq_refl)
    as (entered & left & last & He & Hb & Hi & Hc & Hb' & Hi' & Ha & Hf & _).
  injection Ha as <-.
  split.
  - rewrite Hf. cbn [setItalicRequested setBoldRequested writer].
    injection Hc as <-. injection He as <-. reflexivity.
  - exists entered, left. repeat (split; [assumption|]). exact Hf.
Defined.


Lemma table_columns_and_cells_witness :
  tableColumnCount (headerCells (Some (mkDocTableRow [cell "h"])))
    (map cells
       [mkDocTableRow [cell "a"; cell "b"; cell "c"];
        mkDocTableRow [cell "d"]])
  = 3
  /\ exists context',
      writeNode getEscapedText apiModel ragged initial false
      = Normal context'.
Proof.
  destruct (table_columns_and_cells getEscapedText apiModel
              (Some (mkDocTableRow [cell "h"]))
              [mkDocTableRow [cell "a"; cell "b"; cell "c"];
               mkDocTableRow [cell "d"]]
              initial false) as (Hcount & _ & _ & _ & Hnormal).
  split; [exact Hcount|]. apply Hnormal.
  intros x c Hin. cbn in Hin.
  repeat (destruct Hin as [<-|Hin]; [eexists; reflexivity|]).
  destruct Hin.
Defined.

Lemma table_header_section_after_blank_line_witness :
  exists headerCellsText rowsText : string,
    output (writeNode getEscapedText apiModel headless (after "abc") false)
    = "abc" ++ Js.NL ++ Js.NL
      ++ "<table class=" ++ Js.DQ ++ "doc-table" ++ Js.DQ ++ ">" ++ Js.NL
      ++ "<thead>" ++ Js.NL
      ++ "<tr>" ++ Js.NL
      ++ headerCellsText ++ Js.NL
      ++ "</tr>" ++ Js.NL
      ++ "</thead>" ++ Js.NL
      ++ rowsText.
Proof.
  exact (table_header_section_after_blank_line getEscapedText apiModel
           None [mkDocTableRow [cell "a"; cell "b"]] (after "abc")
           (returned
              (writeNode getEscapedText apiModel headless (after "abc")
                 false))
           false eq_refl).
Defined.

End Worked.
(* ================================================================= *)
(** ** The further properties at work on the sample pages and documents *)

Section WorkedPages.

Import IndentedWriter HtmlDocumenter FileNames SamplePages.

Lemma filename_ignores_what_is_above_a_package_witness :
  _getFilenameForApiItem safeName unscopedName (methodPage 2)
  = _getFilenameForApiItem safeName unscopedName
      (mkDocumentedItem (method 2) [package; entryPoint; class; method 2])
  /\ _getFilenameForApiItem safeName unscopedName (methodPage 2)
     = "my-package.MyClass.myMethod_1.html".
Proof.
  split; [|reflexivity].
  exact (filename_ignores_what_is_above_a_package safeName unscopedName
           (method 2) [model] [] package [entryPoint; class; method 2]
           eq_refl).
Defined.

Lemma filename_is_package_and_dotted_names_witness :
  _getFilenameForApiItem safeName unscopedName (methodPage 2)
  = safeName (unscopedName "@scope/my-package")
    ++ dotJoined safeName [class; method 2] ++ ".html".
Proof.
  exact (proj1 (filename_is_package_and_dotted_names safeName unscopedName
                  (methodPage 2) eq_refl)
           [model] package [entryPoint; class; method 2]
           eq_refl eq_refl eq_refl).
Defined.

Lemma overloads_get_different_filenames_witness :
  _getLinkFilenameForApiItem safeName unscopedName (methodPage 1)
  = "./my-package.MyClass.myMethod.html"
  /\ _getLinkFilenameForApiItem safeName unscopedName (methodPage 2)
     = "./my-package.MyClass.myMethod_1.html"
  /\ _getFilenameForApiItem safeName unscopedName (methodPage 1)
     <> _getFilenameForApiItem safeName unscopedName (methodPage 2)
  /\ _getLinkFilenameForApiItem safeName unscopedName (methodPage 1)
     <> _getLinkFilenameForApiItem safeName unscopedName (methodPage 2).
Proof.
  assert (H1 : (1 <= 1)%Z) by discriminate.
  assert (H2 : (1 <= 2)%Z) by discriminate.
  assert (H12 : 1%Z <> 2%Z) by discriminate.
  split; [reflexivity|]. split; [reflexivity|].
  exact (overloads_get_different_filenames safeName unscopedName
           (mkApiItem "myMethod" "myMethod") "Method" 1 2
           [model; package; entryPoint; class] eq_refl eq_refl H1 H2 H12).
Defined.

Lemma rendering_restores_flags_options_and_indentation_witness :
  let finish :=
    Sample.returned
      (writeNode Sample.getEscapedText Sample.apiModel Sample.emphasised
         Sample.initial false) in
  boldRequested finish = false
  /\ italicRequested finish = false
  /\ options finish = Sample.options
  /\ indentLevel (writer finish) = 0
  /\ defaultIndentPrefix (writer finish) = "  ".
Proof.
  intro finish.
  exact (rendering_restores_flags_options_and_indentation
           Sample.getEscapedText Sample.apiModel Sample.emphasised
           Sample.initial finish false eq_refl).
Defined.

Lemma rendering_only_adds_to_the_console_witness :
  let finish :=
    Sample.returned
      (writeNode Sample.getEscapedText Sample.apiModel unresolved
         Sample.initial false) in
  exists logged, console finish = ([] ++ logged)%list.
Proof.
  intro finish.
  exact (proj1 (rendering_only_adds_to_the_console Sample.getEscapedText
                  Sample.apiModel unresolved Sample.initial finish false
                  eq_refl)).
Defined.

Lemma code_link_never_fails_witness :
  exists context',
    writeLinkTagWithCodeDestination Sample.getEscapedText Sample.apiModel
      (Sample.linkTo "Nope" None) Sample.initial
    = Normal context'
    /\ insideTable context' = false
    /\ boldRequested context' = false
    /\ italicRequested context' = false
    /\ (console context' = []
        \/ (writer context' = writer Sample.initial
            /\ exists line, console context' = ([] ++ [line])%list)).
Proof.
  exact (code_link_never_fails Sample.getEscapedText Sample.apiModel
           (Sample.linkTo "Nope" None) (mkDocDeclarationReference "Nope")
           Sample.initial eq_refl).
Defined.

Lemma only_code_links_log_witness :
  let finish :=
    Sample.returned
      (writeNode Sample.getEscapedText Sample.apiModel Sample.ragged
         Sample.initial false) in
  console finish = [].
Proof.
  intro finish.
  exact (only_code_links_log Sample.getEscapedText Sample.apiModel
           Sample.ragged Sample.initial finish false eq_refl eq_refl).
Defined.

Lemma flags_reach_only_plain_text_outside_spans_witness :
  writeNode Sample.getEscapedText Sample.apiModel titled
    (withFlags true true Sample.initial) false
  = mapCompletion (withFlags true true)
      (writeNode Sample.getEscapedText Sample.apiModel titled
         Sample.initial false).
Proof.
  exact (flags_reach_only_plain_text_outside_spans Sample.getEscapedText
           Sample.apiModel true true titled Sample.initial false eq_refl).
Defined.

Lemma note_box_is_an_indented_pre_block_witness :
  let finish :=
    Sample.returned
      (writeNode Sample.getEscapedText Sample.apiModel
         (DocNoteBox (DocPlainText "note")) (Sample.after "text") false) in
  exists (inner : IMarkdownEmitterContext) (written : string),
    writeNode Sample.getEscapedText Sample.apiModel (DocPlainText "note")
      (updWriter
         (fun w => writeLine "<pre>" (increaseIndent (ensureNewLine w)))
         (Sample.after "text"))
      false
    = Normal inner
    /\ buffer (writer inner) = "text" ++ Js.NL ++ "  <pre>" ++ written
    /\ buffer (writer finish)
       = "text" ++ Js.NL ++ "  <pre>" ++ written ++ Js.NL ++ "  </pre>"
         ++ Js.NL ++ Js.NL
    /\ buffer (writer finish)
       = "text" ++ Js.NL ++ "  <pre>" ++ Js.NL ++ "  note"
         ++ Js.NL ++ "  </pre>" ++ Js.NL ++ Js.NL.
Proof.
  intro finish.
  destruct (note_box_is_an_indented_pre_block Sample.getEscapedText
              Sample.apiModel (DocPlainText "note") (Sample.after "text")
              finish false eq_refl)
    as (inner & written & _ & Hi & Hbi & Hbf & _).
  exists inner, written. split; [exact Hi|]. split; [exact Hbi|].
  split; [|reflexivity].
  injection Hi as <-. exact Hbf.
Defined.

Lemma only_tables_change_insideTable_witness :
  let finish :=
    Sample.returned
      (writeNode Sample.getEscapedText Sample.apiModel Sample.emphasised
         (setInsideTable true Sample.initial) false) in
  insideTable finish = true.
Proof.
  intro finish.
  exact (only_tables_change_insideTable Sample.getEscapedText
           Sample.apiModel Sample.emphasised
           (setInsideTable true Sample.initial) finish false
           eq_refl eq_refl).
Defined.

End WorkedPages.
